(** * University-town scraper: a shallow embedding of
      [scrape_university_towns.py] and the properties of its
      classification pipeline.

    The parsed documents (BeautifulSoup trees) are rose trees; a Python
    reference to an element is a path into one of the trees that are alive
    (the soup of the list article and the subtrees that the [.string]
    setter has detached from it).  Text is [string] with [str.lower]
    restricted to ASCII letters.  Python exceptions are values of [exn];
    there is no [try] in the program, so an exception ends the run. *)

From Stdlib Require Import List String Ascii Bool Arith Lia FinFun Sorted.
Import ListNotations.
Local Open Scope string_scope.
Local Open Scope list_scope.
Local Open Scope nat_scope.

Set Implicit Arguments.
Set Warnings "-register-all".

(* ================================================================= *)
(** ** Text: the [str] operations the program uses                    *)
(* ================================================================= *)

Module Text.

(** [c.lower()] for one character (ASCII letters only). *)
Definition lower_ascii (c : ascii) : ascii :=
  let n := nat_of_ascii c in
  if (65 <=? n) && (n <=? 90) then ascii_of_nat (n + 32) else c.

(** [s.lower()] on ASCII text; characters beyond ASCII are kept as
    they are. *)
Fixpoint lower (s : string) : string :=
  match s with
  | EmptyString => EmptyString
  | String c r => String (lower_ascii c) (lower r)
  end.

(** [u in s] on strings: [u] occurs in [s] as a contiguous substring. *)
Fixpoint str_in (u s : string) : bool :=
  String.prefix u s ||
  match s with
  | EmptyString => false
  | String _ r => str_in u r
  end.

(** Number of positions of [s] at which an occurrence of [u] starts. *)
Fixpoint occurrences (u s : string) : nat :=
  (if String.prefix u s then 1 else 0) +
  match s with
  | EmptyString => 0
  | String _ r => occurrences u r
  end.

Definition is_digit (c : ascii) : bool :=
  let n := nat_of_ascii c in (48 <=? n) && (n <=? 57).

(** [re.findall('\[([0-9]{1,2})\]', s)]: the captured digit groups of the
    non-overlapping matches, scanning from the left.  After a match the
    scan resumes behind the closing bracket, otherwise one character on. *)
Fixpoint findall_sources (s : string) : list string :=
  match s with
  | EmptyString => []
  | String c s1 =>
      if Ascii.eqb c "["%char then
        match s1 with
        | String d1 (String c2 s3) =>
            if is_digit d1 then
              if Ascii.eqb c2 "]"%char then
                String d1 EmptyString :: findall_sources s3
              else
                match s3 with
                | String c3 s4 =>
                    if is_digit c2 && Ascii.eqb c3 "]"%char then
                      String d1 (String c2 EmptyString) :: findall_sources s4
                    else findall_sources s1
                | EmptyString => findall_sources s1
                end
            else findall_sources s1
        | _ => findall_sources s1
        end
      else findall_sources s1
  end.

(** [s.split('[')[0]]: the part of [s] before its first opening bracket. *)
Fixpoint before_bracket (s : string) : string :=
  match s with
  | EmptyString => EmptyString
  | String c r =>
      if Ascii.eqb c "["%char then EmptyString else String c (before_bracket r)
  end.

(** The line break that ends every output line. *)
Definition newline : string := String (ascii_of_nat 10) EmptyString.

(** [x in l] for a list of strings. *)
Definition mem (x : string) (l : list string) : bool :=
  existsb (String.eqb x) l.

End Text.

(* ================================================================= *)
(** ** Document trees and BeautifulSoup navigation                    *)
(* ================================================================= *)

Module Soup.

(** A parsed element: a [NavigableString] or a [Tag] with its name, its
    attribute dictionary and its [contents].  The [BeautifulSoup] object
    at the root of a parsed document is itself a tag named [[document]]. *)
Inductive node : Type :=
| NavigableString (s : string)
| Tag (name : string) (attrs : list (string * string)) (contents : list node).

(** The position of an element below the root of its tree. *)
Definition path := list nat.

Definition path_eqb (p q : path) : bool :=
  if list_eq_dec Nat.eq_dec p q then true else false.

(** The element at a position. *)
Fixpoint get (n : node) (p : path) : option node :=
  match p with
  | [] => Some n
  | i :: q =>
      match n with
      | Tag _ _ cs =>
          match nth_error cs i with
          | Some c => get c q
          | None => None
          end
      | NavigableString _ => None
      end
  end.

(** [x.name]: a tag's name, [None] for a [NavigableString]. *)
Definition name_of (n : node) : option string :=
  match n with
  | Tag nm _ _ => Some nm
  | NavigableString _ => None
  end.

(** [tag[key]] / [tag.get(key)] on the attribute dictionary. *)
Fixpoint lookup_attr (key : string) (attrs : list (string * string))
  : option string :=
  match attrs with
  | [] => None
  | (k, v) :: r => if String.eqb k key then Some v else lookup_attr key r
  end.

Definition attr_of (key : string) (n : node) : option string :=
  match n with
  | Tag _ attrs _ => lookup_attr key attrs
  | NavigableString _ => None
  end.

(** Search criteria: [find_all('a')] and [find_all('a', href=v)]. *)
Definition named (nm : string) (n : node) : bool :=
  match n with
  | Tag m _ _ => String.eqb m nm
  | NavigableString _ => false
  end.

Definition named_with (nm key val : string) (n : node) : bool :=
  match n with
  | Tag m attrs _ =>
      String.eqb m nm &&
      match lookup_attr key attrs with
      | Some v => String.eqb v val
      | None => false
      end
  | NavigableString _ => false
  end.

Definition is_tag (n : node) : bool :=
  match n with Tag _ _ _ => true | NavigableString _ => false end.

(** All positions of a tree in document (pre-)order, the root first:
    the chain of [.next_element] pointers starting at the root. *)
Fixpoint elements (n : node) : list path :=
  [] ::
  match n with
  | NavigableString _ => []
  | Tag _ _ cs =>
      (fix go (i : nat) (l : list node) {struct l} : list path :=
         match l with
         | [] => []
         | c :: r => map (cons i) (elements c) ++ go (S i) r
         end) 0 cs
  end.

Fixpoint elements_from (i : nat) (l : list node) : list path :=
  match l with
  | [] => []
  | c :: r => map (cons i) (elements c) ++ elements_from (S i) r
  end.

(** [tag.get_text()] / [tag.text]: the strings below the element, joined
    in document order. *)
Fixpoint get_text (n : node) : string :=
  match n with
  | NavigableString s => s
  | Tag _ _ cs =>
      (fix go (l : list node) {struct l} : string :=
         match l with
         | [] => EmptyString
         | c :: r => (get_text c ++ go r)%string
         end) cs
  end.

Fixpoint text_of_list (l : list node) : string :=
  match l with
  | [] => EmptyString
  | c :: r => (get_text c ++ text_of_list r)%string
  end.

(** [tag.string]: defined when a chain of only children ends in a string. *)
Fixpoint string_of (n : node) : option string :=
  match n with
  | NavigableString s => Some s
  | Tag _ _ [c] => string_of c
  | Tag _ _ _ => None
  end.

(** Replace the element at a position. *)
Fixpoint replace_nth {A} (i : nat) (x : A) (l : list A) : list A :=
  match l, i with
  | [], _ => []
  | _ :: r, 0 => x :: r
  | y :: r, S j => y :: replace_nth j x r
  end.

Fixpoint replace_at (n : node) (p : path) (new : node) : node :=
  match p with
  | [] => new
  | i :: q =>
      match n with
      | Tag nm attrs cs =>
          match nth_error cs i with
          | Some c => Tag nm attrs (replace_nth i (replace_at c q new) cs)
          | None => n
          end
      | NavigableString _ => n
      end
  end.

Section Navigation.
Variable root : node.

Definition test (f : node -> bool) (p : path) : bool :=
  match get root p with
  | Some n => f n
  | None => false
  end.

(** The elements strictly below [p], in document order. *)
Definition descendants (p : path) : list path :=
  match get root p with
  | Some n => map (app p) (tl (elements n))
  | None => []
  end.

(** The part of a document-order listing that comes after [p]. *)
Fixpoint after (p : path) (l : list path) : list path :=
  match l with
  | [] => []
  | q :: r => if path_eqb q p then r else after p r
  end.

(** The part that comes before [p], nearest first. *)
Fixpoint before (p : path) (l : list path) (acc : list path) : list path :=
  match l with
  | [] => []
  | q :: r => if path_eqb q p then acc else before p r (q :: acc)
  end.

(** [.next_elements] and [.previous_elements] of the element at [p]. *)
Definition next_elements (p : path) : list path := after p (elements root).
Definition previous_elements (p : path) : list path :=
  before p (elements root) [].

(** [tag.find_all(...)]: matching descendants in document order. *)
Definition find_all (f : node -> bool) (p : path) : list path :=
  filter (test f) (descendants p).

(** [tag.find(...)]: the first of them, or [None]. *)
Definition find (f : node -> bool) (p : path) : option path :=
  List.find (test f) (descendants p).

(** [tag.find_next(...)]: the first match after the element. *)
Definition find_next (f : node -> bool) (p : path) : option path :=
  List.find (test f) (next_elements p).

(** [tag.find_previous(...)]: the nearest match before the element;
    ancestors come before their descendants. *)
Definition find_previous (f : node -> bool) (p : path) : option path :=
  List.find (test f) (previous_elements p).

(** [tag.parent] *)
Definition parent (p : path) : option path :=
  match p with
  | [] => None
  | _ => Some (removelast p)
  end.

(** [tag.previous_sibling] *)
Definition previous_sibling (p : path) : option path :=
  match rev p with
  | S i :: q => Some (rev (i :: q))
  | _ => None
  end.

(** [.previous_siblings] of the element at [q ++ [i]], nearest first. *)
Fixpoint siblings_down (q : path) (i : nat) : list path :=
  match i with
  | 0 => []
  | S j => (q ++ [j]) :: siblings_down q j
  end.

Definition previous_siblings (p : path) : list path :=
  match rev p with
  | i :: q => siblings_down (rev q) i
  | [] => []
  end.

(** [tag.find_previous_sibling(...)] *)
Definition find_previous_sibling (f : node -> bool) (p : path)
  : option path :=
  List.find (test f) (previous_siblings p).

(** [tag.get_text()] and [tag.string] of the element at [p]. *)
Definition text_at (p : path) : string :=
  match get root p with
  | Some n => get_text n
  | None => EmptyString
  end.

Definition string_at (p : path) : option string :=
  match get root p with
  | Some n => string_of n
  | None => None
  end.

End Navigation.

End Soup.

(* ================================================================= *)
(** ** The program                                                    *)
(* ================================================================= *)

Module Scraper.
Import Text Soup.

(** The exceptions the program can raise. *)
Inductive exn : Type :=
| AttributeError      (* attribute access on [None] *)
| TypeError           (* [None[...]], [None + str] *)
| KeyError            (* a missing attribute in [tag[key]] *)
| ConnectionError.    (* [requests.get] failed *)

Inductive outcome (A : Type) : Type :=
| Return (a : A)
| Raise (e : exn).
Arguments Raise {A} e.

(** The trees that are alive.  Tree [0] is the soup of the list article;
    the [.string] setter appends the subtrees it detaches. *)
Definition heap := list node.

(** A reference to an element: the tree it lives in and its position. *)
Definition ref : Type := nat * path.

(** What a run does to the outside, in order.  [Checked] and [Scanned]
    are ghost events: they record each call of
    [check_college_town_status] and each time the scan of line 88 is
    reached. *)
Inductive event : Type :=
| Request (url : string)
| Print (s : string)
| Checked (item : ref)
| Scanned.

(** Computations: they read and update the heap, emit events and either
    return a value or raise. *)
Definition M (A : Type) : Type := heap -> outcome A * heap * list event.

Definition ret {A} (a : A) : M A := fun h => (Return a, h, []).
Definition raise {A} (e : exn) : M A := fun h => (Raise e, h, []).
Definition bind {A B} (m : M A) (k : A -> M B) : M B :=
  fun h =>
    match m h with
    | (Return a, h1, t1) =>
        match k a h1 with
        | (r, h2, t2) => (r, h2, t1 ++ t2)
        end
    | (Raise e, h1, t1) => (Raise e, h1, t1)
    end.
Definition read {A} (f : heap -> A) : M A := fun h => (Return (f h), h, []).
Definition emit (e : event) : M unit := fun h => (Return tt, h, [e]).

(** [x.attr] where [x] may be [None]: raises [e] on [None]. *)
Definition need {A} (e : exn) (o : option A) : M A :=
  match o with
  | Some a => ret a
  | None => raise e
  end.

Notation "x <- m ;; k" := (bind m (fun x => k))
  (at level 61, m at next level, right associativity).
Notation "m ;;; k" := (bind m (fun _ => k))
  (at level 61, right associativity).

Definition value {A} (r : outcome A * heap * list event) : outcome A :=
  fst (fst r).
Definition final_heap {A} (r : outcome A * heap * list event) : heap :=
  snd (fst r).
Definition events {A} (r : outcome A * heap * list event) : list event :=
  snd r.

(** *** Navigation through references *)

Definition root_of (h : heap) (x : ref) : node :=
  nth (fst x) h (NavigableString EmptyString).

Definition deref (h : heap) (x : ref) : option node :=
  get (root_of h x) (snd x).

Definition in_tree (x : ref) (p : path) : ref := (fst x, p).

Definition h_find_all (f : node -> bool) (x : ref) (h : heap) : list ref :=
  map (in_tree x) (find_all (root_of h x) f (snd x)).
Definition h_find (f : node -> bool) (x : ref) (h : heap) : option ref :=
  option_map (in_tree x) (find (root_of h x) f (snd x)).
Definition h_find_next (f : node -> bool) (x : ref) (h : heap) : option ref :=
  option_map (in_tree x) (find_next (root_of h x) f (snd x)).
Definition h_find_previous_sibling (f : node -> bool) (x : ref) (h : heap)
  : option ref :=
  option_map (in_tree x) (find_previous_sibling (root_of h x) f (snd x)).
Definition h_parent (x : ref) : option ref :=
  option_map (in_tree x) (parent (snd x)).
Definition h_previous_sibling (x : ref) : option ref :=
  option_map (in_tree x) (previous_sibling (snd x)).
Definition h_text (x : ref) (h : heap) : string :=
  text_at (root_of h x) (snd x).
Definition h_string (x : ref) (h : heap) : option string :=
  string_at (root_of h x) (snd x).
Definition h_name (x : ref) (h : heap) : option string :=
  match deref h x with
  | Some n => name_of n
  | None => None
  end.
Definition h_attr (key : string) (x : ref) (h : heap) : option string :=
  match deref h x with
  | Some n => attr_of key n
  | None => None
  end.

(** [tag.string = s]: [clear()] detaches every child of the tag (each
    becomes the root of a tree of its own), then the new string is
    appended as the only child. *)
Definition set_string (x : ref) (s : string) : M unit :=
  fun h =>
    match deref h x with
    | Some (Tag nm attrs cs) =>
        (Return tt,
         replace_nth (fst x)
           (replace_at (root_of h x) (snd x) (Tag nm attrs [NavigableString s]))
           h ++ cs,
         [])
    | _ => (Raise AttributeError, h, [])
    end.

(** [strip p q]: the rest of [q] behind its prefix [p]. *)
Fixpoint strip (p q : path) : option path :=
  match p, q with
  | [], _ => Some q
  | i :: p', j :: q' => if Nat.eqb i j then strip p' q' else None
  | _ :: _, [] => None
  end.

(** Where a reference points after [set_string] at [x] on a heap of
    [base] trees: an element below the [i]-th child of [x] now lives in
    tree [base + i]; every other reference is unchanged. *)
Definition relocate (moved : ref * nat) (y : ref) : ref :=
  let (x, base) := moved in
  if Nat.eqb (fst y) (fst x) then
    match strip (snd x) (snd y) with
    | Some (i :: q) => (base + i, q)
    | _ => y
    end
  else y.

(** The relocations of several assignments, oldest first. *)
Definition relocate_all (moves : list (ref * nat)) (y : ref) : ref :=
  fold_left (fun z m => relocate m z) moves y.

(** *** [relevant_section] (lines 32-51) *)

(** The function returns [True], [False] or, for a tag that is neither a
    paragraph nor a table, falls off its end ([None]). *)
Definition relevant_section (soup : node) (tag : path)
  : outcome (option bool) :=
  if test soup (named "p") tag || test soup (named "table") tag then
    match find_previous soup (named "h2") tag with
    | None => Return (Some true)
    | Some previous_heading =>
        match find soup (named "span") previous_heading with
        | None => Raise AttributeError
        | Some span =>
            if str_in "economy" (lower (text_at soup span))
            then Return (Some true)
            else Return (Some false)
        end
    end
  else Return None.

(** Python truth of the value [relevant_section] returns. *)
Definition truthy (v : option bool) : bool :=
  match v with
  | Some b => b
  | None => false
  end.

(** [soup.find_all(relevant_section)]: the function is called on every
    tag below the root, in document order. *)
Fixpoint select_relevant (soup : node) (l : list path)
  : outcome (list path) :=
  match l with
  | [] => Return []
  | p :: r =>
      if test soup is_tag p then
        match relevant_section soup p with
        | Return v =>
            match select_relevant soup r with
            | Return l' => Return (if truthy v then p :: l' else l')
            | Raise e => Raise e
            end
        | Raise e => Raise e
        end
      else select_relevant soup r
  end.

Definition find_all_relevant (soup : node) : outcome (list path) :=
  select_relevant soup (descendants soup []).

(** *** [check_college_town_status] (lines 54-97) *)

Definition base_url : string := "https://en.wikipedia.org".
Definition uni_towns_link : string :=
  "/wiki/Category:University_towns_in_the_United_States".

(** Lines 73-75: the links of the entry behind the first, lower-cased,
    without citation placeholders and bracketed indices. *)
Definition universities_of (tag : ref) (h : heap) : list string :=
  map (fun uni => lower (h_text uni h))
    (filter (fun uni =>
               negb (String.eqb (h_text uni h) "citation needed") &&
               negb (str_in "[" (h_text uni h)))
            (tl (h_find_all (named "a") tag h))).

(** Lines 90-93: the inner loop over the relevant paragraphs. *)
Fixpoint count_refs (soup : node) (uni : string) (relevant_paras : list path)
    (ref_count : nat) : nat :=
  match relevant_paras with
  | [] => ref_count
  | para :: r =>
      count_refs soup uni r
        (if str_in uni (lower (text_at soup para))
         then ref_count + 1 else ref_count)
  end.

(** Lines 89-97: the loop over the universities. *)
Fixpoint scan_universities (soup : node) (universities : list string)
    (relevant_paras : list path) : bool :=
  match universities with
  | [] => false
  | uni :: r =>
      if 2 <=? count_refs soup uni relevant_paras 0 then true
      else scan_universities soup r relevant_paras
  end.

(** Lines 87-97, the harder check. *)
Definition slow_path (soup : node) (universities : list string)
  : outcome bool :=
  match find_all_relevant soup with
  | Return relevant_paras =>
      Return (scan_universities soup universities relevant_paras)
  | Raise e => Raise e
  end.

Definition lift {A} (r : outcome A) : M A := fun h => (r, h, []).

Section Web.

(** The network: [requests.get(url)] followed by the parse, [None] when
    the request fails. *)
Variable web : string -> option node.

Definition requests_get (url : string) : M node :=
  emit (Request url) ;;; need ConnectionError (web url).

Definition check_college_town_status (tag : ref) : M bool :=
  emit (Checked tag) ;;;
  link <- read (h_find_next (named "a") tag) ;;
  link <- need TypeError link ;;
  href <- read (h_attr "href" link) ;;
  href <- need KeyError href ;;
  let url := (base_url ++ href)%string in
  universities <- read (universities_of tag) ;;
  soup <- requests_get url ;;
  category_links <-
    need AttributeError (find soup (named_with "div" "id" "catlinks") []) ;;
  match find_all soup (named_with "a" "href" uni_towns_link) category_links
  with
  | _ :: _ => ret true
  | [] => emit Scanned ;;; lift (slow_path soup universities)
  end.

(** *** [get_towns_from_state] (lines 100-155) *)

Definition good_sources : list string :=
  ["7"; "9"; "13"; "15"; "16"; "17"; "22"; "24"; "28"; "30"; "34"; "37";
   "38"; "40"; "41"; "43"; "50"; "54"].

Definition big_cities : list string :=
  ["Los Angeles"; "Sacramento"; "Atlanta"; "Chicago"; "Detroit";
   "Cleveland"; "Columbus"; "Johnstown"; "Lower Merion Township";
   "Philadelphia"; "Pittsburgh"; "State College"; "Providence"].

(** Line 145: [sources and sum(map(lambda x: x in good_sources, sources))]
    as a truth value. *)
Definition good_count (sources : list string) : nat :=
  list_sum (map (fun x => if mem x good_sources then 1 else 0) sources).

Definition sources_are_good (sources : list string) : bool :=
  match sources with
  | [] => false
  | _ :: _ => negb (Nat.eqb (good_count sources) 0)
  end.

(** Line 137: [item.parent.previous_sibling.previous_sibling.name != 'h3'] *)
Definition is_neighborhood (item : ref) : M bool :=
  par <- need AttributeError (h_parent item) ;;
  sib <- need AttributeError (h_previous_sibling par) ;;
  sib <- need AttributeError (h_previous_sibling sib) ;;
  nm <- read (h_name sib) ;;
  ret (match nm with
       | Some n => negb (String.eqb n "h3")
       | None => true
       end).

(** Line 139: [item.parent.parent.find_next('a').text] *)
Definition enclosing_city (item : ref) : M string :=
  par <- need AttributeError (h_parent item) ;;
  par <- need AttributeError (h_parent par) ;;
  link <- read (h_find_next (named "a") par) ;;
  link <- need AttributeError link ;;
  read (h_text link).

(** Lines 137-141.  Returns the relocation that the assignment to
    [.string] causes, if it ran. *)
Definition rename_neighborhood (item : ref) : M (list (ref * nat)) :=
  nested <- is_neighborhood item ;;
  if nested : bool then
    city <- enclosing_city item ;;
    if mem city big_cities then
      link <- read (h_find_next (named "a") item) ;;
      link <- need AttributeError link ;;
      old <- read (h_string link) ;;
      old <- need TypeError old ;;
      base <- read (@List.length node) ;;
      set_string link (old ++ ", " ++ city)%string ;;;
      ret [(link, base)]
    else ret []
  else ret [].

(** Lines 131-153: one round of the loop over [town_list]. *)
Definition town_body (item : ref) (towns : list string)
  : M (list string * list (ref * nat)) :=
  sublists <- read (h_find_all (named "ul") item) ;;
  match sublists with
  | _ :: _ => ret (towns, [])
  | [] =>
      moved <- rename_neighborhood item ;;
      line <- read (h_text item) ;;
      let sources := findall_sources line in
      if sources_are_good sources then
        ret (towns ++ [(line ++ newline)%string], moved)
      else
        status <- check_college_town_status item ;;
        if status : bool then ret (towns ++ [(line ++ newline)%string], moved)
        else ret (towns, moved)
  end.

(** Lines 131-153.  [town_list] was computed before the loop; [moves]
    are the relocations its elements have undergone since.  They are
    handed back with the towns, for the references the caller holds. *)
Fixpoint town_loop (town_list : list ref) (moves : list (ref * nat))
    (towns : list string) : M (list string * list (ref * nat)) :=
  match town_list with
  | [] => ret (towns, moves)
  | item :: rest =>
      r <- town_body (relocate_all moves item) towns ;;
      town_loop rest (moves ++ snd r) (fst r)
  end.

Definition get_towns_from_state (tag : ref)
  : M (list string * list (ref * nat)) :=
  ul <- read (h_find_next (named "ul") tag) ;;
  ul <- need AttributeError ul ;;
  town_list <- read (h_find_all (named "li") ul) ;;
  town_loop town_list [] [].

(** *** [scrape_university_towns] (lines 158-186) *)

Definition url : string :=
  "https://en.wikipedia.org/wiki/List_of_college_towns#College_towns_in_the_United_States".

Definition anchor_label : string := "College towns in the United States".

(** Line 179, the loop condition. *)
Definition in_anchor_section (tag : ref) : M bool :=
  h2 <- read (h_find_previous_sibling (named "h2") tag) ;;
  h2 <- need AttributeError h2 ;;
  span <- read (h_find (named "span") h2) ;;
  span <- need AttributeError span ;;
  label <- read (h_text span) ;;
  ret (String.eqb label anchor_label).

(** Lines 179-184.  [None] is returned when the rounds run out. *)
Fixpoint scrape_loop (rounds : nat) (tag : ref) (data : list string)
  : M (option (list string)) :=
  match rounds with
  | 0 => ret None
  | S rounds' =>
      continue <- in_anchor_section tag ;;
      if continue : bool then
        label <- read (h_text tag) ;;
        emit (Print ("Checking college towns in " ++
                     before_bracket label ++ "...")%string) ;;;
        let data := data ++ [(label ++ newline)%string] in
        r <- get_towns_from_state tag ;;
        let data := data ++ fst r in
        let tag := relocate_all (snd r) tag in
        next <- read (h_find_next (named "h3") tag) ;;
        next <- need AttributeError next ;;
        scrape_loop rounds' next data
      else ret (Some data)
  end.

(** The soup of the list article becomes the only live tree. *)
Definition parse (soup : node) : M ref :=
  fun _ => (Return (0, []), [soup], []).

(** Lines 173-186 on the parsed article. *)
Definition scrape_document (rounds : nat) (doc : node)
  : M (option (list string)) :=
  soup <- parse doc ;;
  tag <- read (h_find (named_with "span" "id"
                         "College_towns_in_the_United_States") soup) ;;
  tag <- need AttributeError tag ;;
  tag <- read (h_find_next (named "h3") tag) ;;
  tag <- need AttributeError tag ;;
  scrape_loop rounds tag [].

(** The loop moves to a later heading in every round, so it cannot run
    more rounds than the article has elements. *)
Definition scrape_university_towns : M (option (list string)) :=
  doc <- requests_get url ;;
  scrape_document (List.length (elements doc)) doc.

End Web.

End Scraper.

(* ================================================================= *)
(** ** Vocabulary of the specification                                *)
(* ================================================================= *)

Module Spec.
Import Text Soup Scraper.

(** [h] is the nearest element before [p], in document order, that
    satisfies [f]. *)
Definition nearest_preceding (root : node) (f : node -> bool) (h p : path)
  : Prop :=
  exists l1 l2 l3,
    elements root = l1 ++ h :: l2 ++ p :: l3 /\
    test root f h = true /\
    forall q, In q l2 -> test root f q = false.

(** No element before [p] satisfies [f]. *)
Definition none_preceding (root : node) (f : node -> bool) (p : path) : Prop :=
  exists l1 l3,
    elements root = l1 ++ p :: l3 /\
    forall q, In q l1 -> test root f q = false.

(** The label of a heading: the text of the heading. *)
Definition heading_label (soup : node) (h : path) : string :=
  text_at soup h.

(** What line 48 reads instead: the text of the first [span] below the
    heading, if there is one. *)
Definition first_span_text (soup : node) (h : path) : option string :=
  option_map (text_at soup) (find soup (named "span") h).

Definition is_paragraph_or_table (soup : node) (tag : path) : bool :=
  test soup (named "p") tag || test soup (named "table") tag.

(** The number of the given nodes whose lower-cased text contains the
    (lower-cased) university name. *)
Definition mentions (soup : node) (uni : string) (paras : list path) : nat :=
  List.length
    (filter (fun para => str_in uni (lower (text_at soup para))) paras).

(** The Section Classifier marks the tag at [p] in-scope. *)
Definition in_scope (soup : node) (p : path) : bool :=
  test soup is_tag p &&
  match relevant_section soup p with
  | Return (Some true) => true
  | _ => false
  end.

(** The checker called on [tag] gets [soup] as the candidate's own
    article: the entry has a first link, the link has a target and the
    request for it succeeds. *)
Definition fetches (web : string -> option node) (tag : ref) (h : heap)
    (link : ref) (href : string) (soup : node) : Prop :=
  h_find_next (named "a") tag h = Some link /\
  h_attr "href" link h = Some href /\
  web (base_url ++ href)%string = Some soup.

(** The category-links region exists and has no link to the category of
    university towns: the checker goes on to the harder check. *)
Definition reaches_slow_path (soup : node) : Prop :=
  exists category_links,
    find soup (named_with "div" "id" "catlinks") [] = Some category_links /\
    find_all soup (named_with "a" "href" uni_towns_link) category_links = [].

(** The category-links region has a link to the category. *)
Definition has_category_link (soup : node) : Prop :=
  exists category_links,
    find soup (named_with "div" "id" "catlinks") [] = Some category_links /\
    find_all soup (named_with "a" "href" uni_towns_link) category_links <> [].

(** The heap after [link.string = s]: the contents of the tag at [link]
    are the single string [s]; its former children are trees of their
    own at the end of the heap. *)
Definition rewritten (h : heap) (link : ref) (s : string) : heap :=
  match deref h link with
  | Some (Tag nm attrs cs) =>
      replace_nth (fst link)
        (replace_at (root_of h link) (snd link)
           (Tag nm attrs [NavigableString s])) h ++ cs
  | _ => h
  end.

(** Document order on positions: an element comes before its
    descendants and before the later siblings of its ancestors. *)
Fixpoint comes_before (p q : path) : Prop :=
  match p, q with
  | [], _ :: _ => True
  | i :: p', j :: q' => i < j \/ (i = j /\ comes_before p' q')
  | _, [] => False
  end.

(** [x] is not the element [tag] nor one of its ancestors: it lives in
    another tree or comes later in the tree of [tag]. *)
Definition behind (tag x : ref) : Prop :=
  fst x <> fst tag \/ comes_before (snd tag) (snd x).

(** The number of elements behind [x] in its tree: what [find_next] can
    still reach from [x]. *)
Definition remaining (h : heap) (x : ref) : nat :=
  List.length (next_elements (root_of h x) (snd x)).

(** From [h] to [h1] no tree got lost and no live element got more
    elements behind it. *)
Definition grows (h h1 : heap) : Prop :=
  List.length h <= List.length h1 /\
  forall x, fst x < List.length h -> remaining h1 x <= remaining h x.

(** A citation marker: one or two digits. *)
Definition is_marker (m : string) : bool :=
  match m with
  | String d1 EmptyString => is_digit d1
  | String d1 (String d2 EmptyString) => is_digit d1 && is_digit d2
  | _ => false
  end.

(** The marker as it stands in the text of an entry. *)
Definition bracketed (m : string) : string := String "[" (m ++ "]").

(** The entry contains a nested list, unordered or ordered. *)
Definition contains_nested_list (item : ref) (h : heap) : Prop :=
  h_find_all (named "ul") item h <> [] \/
  h_find_all (named "ol") item h <> [].

(** Lines 175-186 of [scrape_university_towns] on a tree that is
    already parsed: what the driver does with [soup]. *)
Definition run_on_tree (web : string -> option node) (rounds : nat)
    (soup : ref) : M (option (list string)) :=
  tag <- read (h_find (named_with "span" "id"
                         "College_towns_in_the_United_States") soup) ;;
  tag <- need AttributeError tag ;;
  tag <- read (h_find_next (named "h3") tag) ;;
  tag <- need AttributeError tag ;;
  scrape_loop web rounds tag [].

(** The test of line 137 is true of [item]: the element two siblings
    before the parent of the entry exists and is not an [h3]. *)
Definition passes_line_137 (item : ref) (h : heap) : Prop :=
  exists par sib1 sib2,
    h_parent item = Some par /\
    h_previous_sibling par = Some sib1 /\
    h_previous_sibling sib1 = Some sib2 /\
    h_name sib2 h <> Some "h3".

(** Line 139 reads [city]: the text of the first link after the start
    of the grandparent of the entry. *)
Definition line_139_reads (item : ref) (h : heap) (city : string) : Prop :=
  exists par grandparent link,
    h_parent item = Some par /\
    h_parent par = Some grandparent /\
    h_find_next (named "a") grandparent h = Some link /\
    h_text link h = city.

(** The round for [item] gets as far as the assignment of line 141: the
    entry has no [ul] below it, the test of line 137 is true and the
    name that line 139 reads is one of the big cities. *)
Definition reaches_line_141 (item : ref) (h : heap) : bool :=
  match h_find_all (named "ul") item h with
  | _ :: _ => false
  | [] =>
      match value (is_neighborhood item h) with
      | Return true =>
          match value (enclosing_city item h) with
          | Return city => mem city big_cities
          | Raise _ => false
          end
      | _ => false
      end
  end.

(** The headings the loop of lines 179-184 comes to: started at [tag]
    on the heap [h] it comes to [last] on the heap [h'], having passed
    the condition of line 179 and run the extractor at every heading
    before [last]. *)
Inductive visits (web : string -> option node)
  : ref -> heap -> ref -> heap -> Prop :=
| visits_first tag h : visits web tag h tag h
| visits_next tag h out h1 t next last h' :
    value (in_anchor_section tag h) = Return true ->
    get_towns_from_state web tag h = (Return out, h1, t) ->
    h_find_next (named "h3") (relocate_all (snd out) tag) h1 = Some next ->
    visits web next h1 last h' ->
    visits web tag h last h'.

(** Text of ASCII characters only, on which [lower] is [str.lower]. *)
Fixpoint ascii_only (s : string) : bool :=
  match s with
  | EmptyString => true
  | String c r => (nat_of_ascii c <? 128) && ascii_only r
  end.

End Spec.

(* ================================================================= *)
(** ** Sample documents                                               *)
(* ================================================================= *)

Module Examples.
Import Text Soup Scraper Spec.

Definition text : string -> node := NavigableString.
Definition link (href label : string) : node :=
  Tag "a" [("href", href)] [text label].
Definition heading (level label : string) : node :=
  Tag level []
    [Tag "span" [("class", "mw-headline")] [text label]; text "[edit]"].
Definition para (s : string) : node := Tag "p" [] [text s].
Definition catlinks (links : list node) : node :=
  Tag "div" [("id", "catlinks")] links.

(** A list article with one state: a city with a neighborhood that has a
    trusted citation, a town without citation and a town with a trusted
    citation. *)
Definition list_article : node :=
  Tag "[document]" []
    [Tag "h2" []
       [Tag "span" [("class", "mw-headline");
                    ("id", "College_towns_in_the_United_States")]
          [text "College towns in the United States"]];
     text newline;
     heading "h3" "California";
     text newline;
     Tag "ul" []
       [Tag "li" []
          [link "/wiki/Los_Angeles" "Los Angeles"; text newline;
           Tag "ul" []
             [Tag "li" []
                [link "/wiki/Westwood" "Westwood"; text " (";
                 link "/wiki/UCLA" "UCLA"; text ")[7]"]]];
        Tag "li" []
          [link "/wiki/Smalltown" "Smalltown"; text " (";
           link "/wiki/Some_College" "Some College"; text ")"];
        Tag "li" []
          [link "/wiki/Davis" "Davis"; text " (";
           link "/wiki/UC_Davis" "UC Davis"; text ")[9]"]];
     text newline;
     heading "h2" "See also";
     text newline;
     heading "h3" "Notes"].

Definition california : ref := (0, [2]).
Definition los_angeles : ref := (0, [4; 0]).
Definition westwood : ref := (0, [4; 0; 2; 0]).
Definition westwood_link : ref := (0, [4; 0; 2; 0; 0]).
Definition smalltown : ref := (0, [4; 1]).
Definition smalltown_link : ref := (0, [4; 1; 0]).
Definition davis : ref := (0, [4; 2]).

(** Articles about Smalltown.  The college is named in the lead and in
    the economy section, *)
Definition article_two_nodes : node :=
  Tag "[document]" []
    [para "Smalltown is the home of Some College.";
     heading "h2" "History";
     para "Some College was founded in Smalltown.";
     heading "h2" "Economy";
     para "The largest employer is Some College.";
     catlinks [link "/wiki/Category:Towns" "Towns"]].

(** twice in the lead and once under an unrelated heading, *)
Definition article_one_node : node :=
  Tag "[document]" []
    [para "Smalltown is the home of Some College; Some College is old.";
     heading "h2" "History";
     para "Some College was founded in Smalltown.";
     catlinks [link "/wiki/Category:Towns" "Towns"]].

(** not at all, but the article is in the category (and has a heading
    without a [span]). *)
Definition article_category : node :=
  Tag "[document]" []
    [para "Smalltown is a town.";
     Tag "h2" [] [text "History"];
     para "Founded long ago.";
     catlinks [link uni_towns_link "University towns in the United States"]].

(** The network: the list article, and for Smalltown the given article
    or a failure; every other request fails. *)
Definition serve (article : option node) (u : string) : option node :=
  if String.eqb u url then Some list_article
  else if String.eqb u "https://en.wikipedia.org/wiki/Smalltown" then article
  else None.

(** A list whose only entry has a trusted citation and a nested ordered
    list. *)
Definition nested_ordered : node :=
  Tag "[document]" []
    [heading "h3" "Ohio"; text newline;
     Tag "ul" []
       [Tag "li" []
          [link "/wiki/Springfield" "Springfield"; text " (";
           link "/wiki/SC" "Some College"; text ")[7]";
           Tag "ol" [] [Tag "li" [] [text "Downtown"]]]]].

Definition springfield : ref := (0, [2; 0]).

End Examples.

(* ================================================================= *)
(** ** The text file and the table of towns                           *)
(* ================================================================= *)

Module Table.
Import Text.

(** The files of the working directory, by name.  The text is stored as
    it is written (POSIX line ends, an encoding that holds every
    character). *)
Definition files : Type := string -> option string.

Definition university_towns_txt : string := "university_towns.txt".

(** [file.writelines(data)]: the strings one after the other. *)
Fixpoint writelines (data : list string) : string :=
  match data with
  | [] => EmptyString
  | x :: r => (x ++ writelines r)%string
  end.

(** [write_to_txt] of [scrape_university_towns.py] (lines 188-198): the
    file is created or truncated and holds the lines. *)
Definition write_to_txt (data : list string) (fs : files) : files :=
  fun name =>
    if String.eqb name university_towns_txt then Some (writelines data)
    else fs name.

Definition cr : ascii := ascii_of_nat 13.
Definition lf : ascii := ascii_of_nat 10.

(** Reading in text mode: a carriage return, with or without a line feed
    behind it, is read as one line feed. *)
Fixpoint universal_newlines (s : string) : string :=
  match s with
  | EmptyString => EmptyString
  | String c r =>
      if Ascii.eqb c cr then
        match r with
        | String d r' =>
            if Ascii.eqb d lf then String lf (universal_newlines r')
            else String lf (universal_newlines r)
        | EmptyString => String lf EmptyString
        end
      else String c (universal_newlines r)
  end.

(** [list(file)]: the lines, each with the line feed that ends it; the
    last one may have none. *)
Fixpoint readlines (s : string) : list string :=
  match s with
  | EmptyString => []
  | String c r =>
      if Ascii.eqb c lf then String c EmptyString :: readlines r
      else
        match readlines r with
        | [] => [String c EmptyString]
        | l :: ls => String c l :: ls
        end
  end.

(** [s[:-n]] for [n > 0]. *)
Definition drop_last (n : nat) (s : string) : string :=
  substring 0 (String.length s - n) s.

(** [s.split(sep)[0]] for a non-empty [sep]: the part of [s] before the
    first occurrence of [sep], all of [s] when there is none. *)
Fixpoint split_head (sep s : string) : string :=
  if String.prefix sep s then EmptyString
  else
    match s with
    | EmptyString => EmptyString
    | String c r => String c (split_head sep r)
    end.

(** [s.lstrip('\n')], [s.rstrip('\n')] and [s.strip('\n')]. *)
Fixpoint lstrip_lf (s : string) : string :=
  match s with
  | EmptyString => EmptyString
  | String c r => if Ascii.eqb c lf then lstrip_lf r else s
  end.

Fixpoint rstrip_lf (s : string) : string :=
  match s with
  | EmptyString => EmptyString
  | String c r =>
      match rstrip_lf r with
      | EmptyString => if Ascii.eqb c lf then EmptyString else String c EmptyString
      | r' => String c r'
      end
  end.

Definition strip_lf (s : string) : string := rstrip_lf (lstrip_lf s).

(** A row of the DataFrame with the columns [State] and [RegionName]. *)
Definition row : Type := string * string.

(** Lines 56-60 of [university_town_recession_ttest.py]. *)
Fixpoint towns_loop (unitowns : list string) (state : string)
    (data : list row) : list row :=
  match unitowns with
  | [] => data
  | item :: r =>
      if str_in "[edit]" item then towns_loop r (drop_last 7 item) data
      else
        towns_loop r state
          (data ++ [(state, strip_lf (split_head " (" item))])
  end.

(** Lines 49-51: the lines of the file; [None] stands for the
    [FileNotFoundError] of [open]. *)
Definition open_lines (fs : files) : option (list string) :=
  option_map (fun content => readlines (universal_newlines content))
    (fs university_towns_txt).

(** [get_list_of_university_towns] (lines 37-64). *)
Definition get_list_of_university_towns (fs : files) : option (list row) :=
  option_map (fun unitowns => towns_loop unitowns EmptyString [])
    (open_lines fs).

(** *** Vocabulary for the properties of the table *)

Fixpoint no_char (c : ascii) (s : string) : bool :=
  match s with
  | EmptyString => true
  | String d r => negb (Ascii.eqb d c) && no_char c r
  end.

(** Text without line ends. *)
Definition plain (s : string) : bool := no_char lf s && no_char cr s.

(** The lines as [scrape_university_towns] writes them. *)
Definition state_line (label : string) : string :=
  (label ++ "[edit]" ++ newline)%string.
Definition town_line (town rest : string) : string :=
  (town ++ " (" ++ rest ++ newline)%string.

(** The [RegionName] that line 60 takes from a line. *)
Definition region_of (item : string) : string :=
  strip_lf (split_head " (" item).

Definition is_state_line (item : string) : bool := str_in "[edit]" item.

(** The state in force behind a run of lines. *)
Fixpoint state_after (unitowns : list string) (state : string) : string :=
  match unitowns with
  | [] => state
  | item :: r =>
      state_after r (if is_state_line item then drop_last 7 item else state)
  end.

(** A state with its towns, each with the text in its parenthesis. *)
Definition block : Type := string * list (string * string).

Definition render (blocks : list block) : list string :=
  flat_map (fun b : block =>
              state_line (fst b) ::
              map (fun t : string * string => town_line (fst t) (snd t))
                (snd b))
    blocks.

Definition rows_of (blocks : list block) : list row :=
  flat_map (fun b : block =>
              map (fun t : string * string => (fst b, fst t)) (snd b))
    blocks.

Definition well_formed_town (t : string * string) : Prop :=
  plain (fst t) = true /\ plain (snd t) = true /\
  str_in " (" (fst t) = false /\
  is_state_line (town_line (fst t) (snd t)) = false.

Definition well_formed (b : block) : Prop :=
  plain (fst b) = true /\ Forall well_formed_town (snd b).

End Table.

(* ================================================================= *)
(** ** More vocabulary and sample documents                           *)
(* ================================================================= *)

Module Shape.
Import Text.

(** A string that ends with the line break. *)
Definition ends_line (x : string) : Prop :=
  exists line, x = (line ++ newline)%string.

End Shape.

Module MoreExamples.
Import Text Soup Scraper Spec Examples Table.

(** A state whose entries are a plain text, a link without target, a
    town with its own link only, and a town with an empty second link. *)
Definition odd_entries : node :=
  Tag "[document]" []
    [heading "h3" "Ohio"; text newline;
     Tag "ul" []
       [Tag "li" [] [link "/wiki/Smalltown" "Lonetown"];
        Tag "li" []
          [link "/wiki/Smalltown" "Smalltown"; text " (";
           Tag "a" [("href", "/wiki/File:Seal.png")] []; text ")"];
        Tag "li" [] [Tag "a" [] [text "Nowhere"]];
        Tag "li" [] [text "Plain town"]]].

Definition lonetown : ref := (0, [2; 0]).
Definition sealtown : ref := (0, [2; 1]).
Definition nowhere : ref := (0, [2; 2]).
Definition plain_town : ref := (0, [2; 3]).

(** An article without the region of the category links, and one whose
    second heading has no [span]. *)
Definition article_without_region : node :=
  Tag "[document]" [] [para "Smalltown is a town."].

Definition article_bare_heading : node :=
  Tag "[document]" []
    [para "Smalltown is the home of Some College.";
     para "Some College is large.";
     Tag "h2" [] [text "History"];
     para "Founded long ago.";
     catlinks []].

(** A network that serves [doc] as the list article and nothing else. *)
Definition serve_only (doc : node) (u : string) : option node :=
  if String.eqb u url then Some doc else None.

(** The sample output as blocks of the table. *)
Definition california_block : block :=
  ("California",
   [("Westwood, Los Angeles", "UCLA)[7]"); ("Davis", "UC Davis)[9]")]).

Definition no_files : files := fun _ => None.

(** An article whose lead is a table with one paragraph in it. *)
Definition article_nested : node :=
  Tag "[document]" []
    [Tag "table" []
       [Tag "tr" [] [Tag "td" [] [para "Home of Some College."]]];
     catlinks []].

(** A neighborhood of a big city whose link has markup inside. *)
Definition marked_up : node :=
  Tag "[document]" []
    [heading "h3" "California"; text newline;
     Tag "ul" []
       [Tag "li" []
          [link "/wiki/Los_Angeles" "Los Angeles"; text newline;
           Tag "ul" []
             [Tag "li" []
                [Tag "a" [("href", "/wiki/Westwood")]
                   [Tag "i" [] [text "West"]; text "wood"];
                 text " [7]"]]]]].

Definition marked_up_entry : ref := (0, [2; 0; 2; 0]).

(** An article whose economy heading starts with an empty anchor
    [span], as a heading with a special character in it is rendered. *)
Definition article_economy_anchor : node :=
  Tag "[document]" []
    [para "Smalltown is the home of Some College.";
     Tag "h2" []
       [Tag "span" [("id", "Economy_&_industry")] [];
        Tag "span" [("class", "mw-headline"); ("id", "Economy_.26_industry")]
          [text "Economy & industry"];
        text "[edit]"];
     para "The largest employer is Some College.";
     catlinks []].

(** A neighborhood with a trusted citation under a city that has no
    link and is not a big city. *)
Definition unlinked_city : node :=
  Tag "[document]" []
    [heading "h3" "Illinois"; text newline;
     Tag "ul" []
       [Tag "li" []
          [Tag "b" [] [text "Smallville"]; text newline;
           Tag "ul" []
             [Tag "li" []
                [link "/wiki/Chicago" "Chicago"; text " (";
                 link "/wiki/UIC" "UIC"; text ")[7]"]]]]].

Definition illinois : ref := (0, [0]).
Definition chicago_entry : ref := (0, [2; 0; 2; 0]).

(** A neighborhood without a link of its own under a big city, with
    another town behind it. *)
Definition linkless_neighborhood : node :=
  Tag "[document]" []
    [heading "h3" "California"; text newline;
     Tag "ul" []
       [Tag "li" []
          [link "/wiki/Los_Angeles" "Los Angeles"; text newline;
           Tag "ul" [] [Tag "li" [] [text "Westwood (UCLA)[7]"]]];
        Tag "li" []
          [link "/wiki/Davis" "Davis"; text " (";
           link "/wiki/UC_Davis" "UC Davis"; text ")[9]"]]].

(** A state whose list stands behind a paragraph with a link. *)
Definition see_also_first : node :=
  Tag "[document]" []
    [heading "h3" "Illinois"; text newline;
     Tag "p" [] [text "See also "; link "/wiki/Chicago" "Chicago"; text "."];
     text newline;
     Tag "ul" []
       [Tag "li" []
          [link "/wiki/Evanston" "Evanston"; text " (";
           link "/wiki/NU" "Northwestern University"; text ")[7]"]]].

Definition evanston : ref := (0, [4; 0]).
Definition evanston_link : ref := (0, [4; 0; 0]).



(** A list article with one state and one town with a trusted citation,
    and the same article without the headings behind the state. *)
Definition article_plain : node :=
  Tag "[document]" []
    [Tag "h2" []
       [Tag "span" [("class", "mw-headline");
                    ("id", "College_towns_in_the_United_States")]
          [text "College towns in the United States"]];
     text newline;
     heading "h3" "Ohio";
     text newline;
     Tag "ul" []
       [Tag "li" []
          [link "/wiki/Athens" "Athens"; text " (";
           link "/wiki/OU" "Ohio University"; text ")[7]"]];
     text newline;
     heading "h2" "See also";
     text newline;
     heading "h3" "Notes"].

Definition article_runs_out : node :=
  Tag "[document]" []
    [Tag "h2" []
       [Tag "span" [("class", "mw-headline");
                    ("id", "College_towns_in_the_United_States")]
          [text "College towns in the United States"]];
     text newline;
     heading "h3" "Ohio";
     text newline;
     Tag "ul" []
       [Tag "li" []
          [link "/wiki/Athens" "Athens"; text " (";
           link "/wiki/OU" "Ohio University"; text ")[7]"]]].

Definition ohio : ref := (0, [2]).

(** A list article that has the anchor and no state behind it. *)
Definition anchor_only : node :=
  Tag "[document]" []
    [Tag "h2" []
       [Tag "span" [("id", "College_towns_in_the_United_States")]
          [text "College towns in the United States"]]].

(** The towns and the relocation that the extractor returns for the
    sample state. *)
Definition sample_towns : list string * list (ref * nat) :=
  ([("Westwood, Los Angeles (UCLA)[7]" ++ newline)%string;
    ("Smalltown (Some College)" ++ newline)%string;
    ("Davis (UC Davis)[9]" ++ newline)%string],
   [(westwood_link, 1)]).

Definition sample_output : list string :=
  [("California[edit]" ++ newline)%string;
   ("Westwood, Los Angeles (UCLA)[7]" ++ newline)%string;
   ("Smalltown (Some College)" ++ newline)%string;
   ("Davis (UC Davis)[9]" ++ newline)%string].

End MoreExamples.

Unset Implicit Arguments.

(* ================================================================= *)
(** ** Facts about the citation markers                               *)
(* ================================================================= *)

Module TextFacts.
Import Text Soup Scraper Spec.

Lemma prefix_cons a u b s :
  String.prefix (String a u) (String b s) = true <->
  a = b /\ String.prefix u s = true.
Proof.
  simpl. destruct (ascii_dec a b) as [E | E]; split.
  - auto.
  - now intros [_ H].
  - discriminate.
  - now intros [H _].
Qed.

Lemma digit_not_bracket c :
  is_digit c = true -> c <> "["%char /\ c <> "]"%char.
Proof.
  intros H. split; intros ->; vm_compute in H; discriminate.
Qed.

Lemma str_in_skip c u r :
  c <> "["%char -> str_in (String "[" u) (String c r) = str_in (String "[" u) r.
Proof.
  intros H. cbn [str_in].
  destruct (String.prefix (String "[" u) (String c r)) eqn:E; [| reflexivity].
  apply prefix_cons in E as [E _]. congruence.
Qed.

Lemma str_in_here u c r :
  str_in u (String c r) = true ->
  String.prefix u (String c r) = true \/ str_in u r = true.
Proof. cbn [str_in]. intros H. apply orb_true_iff in H. exact H. Qed.

(** Every bracketed marker of the text is found ... *)
Lemma findall_sources_complete m : is_marker m = true ->
  forall n s, String.length s <= n ->
  str_in (bracketed m) s = true -> In m (findall_sources s).
Proof.
  intros Hm. induction n as [| n IH]; intros s Hn Hs.
  - destruct s; [| simpl in Hn; lia]. simpl in Hs. discriminate.
  - destruct s as [| c s1]; [simpl in Hs; discriminate |].
    simpl in Hn.
    destruct (Ascii.eqb_spec c "["%char) as [-> | Hc].
    2:{ unfold bracketed in Hs. rewrite str_in_skip in Hs by exact Hc.
        cbn [findall_sources]. destruct (Ascii.eqb_spec c "["%char); [congruence |].
        apply IH; [lia | exact Hs]. }
    assert (str_in (bracketed m) s1 = true -> In m (findall_sources s1)) as IH1.
    { apply IH. lia. }
    apply str_in_here in Hs. unfold bracketed in Hs at 1.
    cbn [findall_sources]. rewrite Ascii.eqb_refl.
    destruct s1 as [| d1 [| c2 s3]].
    + destruct Hs as [Hs | Hs]; [| now apply IH1].
      apply prefix_cons in Hs as [_ Hs]. destruct m; discriminate.
    + destruct Hs as [Hs | Hs]; [| now apply IH1].
      apply prefix_cons in Hs as [_ Hs].
      destruct m as [| x m']; [discriminate |]. simpl in Hs.
      destruct (ascii_dec x d1); [| discriminate].
      destruct m'; discriminate.
    + destruct (is_digit d1) eqn:Hd1.
      * destruct (digit_not_bracket d1 Hd1) as [Hd1a Hd1b].
        destruct (Ascii.eqb_spec c2 "]"%char) as [-> | Hc2].
        -- destruct Hs as [Hs | Hs].
           ++ apply prefix_cons in Hs as [_ Hs].
              destruct m as [| x [| y m'']]; try discriminate.
              ** apply prefix_cons in Hs as [-> _]. now left.
              ** apply prefix_cons in Hs as [-> Hs].
                 apply prefix_cons in Hs as [-> _].
                 simpl in Hm. rewrite Hd1 in Hm. simpl in Hm.
                 destruct m''; [| discriminate].
                 apply digit_not_bracket in Hm. tauto.
           ++ right. unfold bracketed in Hs.
              rewrite str_in_skip in Hs by exact Hd1a.
              rewrite str_in_skip in Hs by discriminate.
              apply IH; [simpl in Hn; lia | exact Hs].
        -- destruct s3 as [| c3 s4].
           ++ destruct Hs as [Hs | Hs]; [| now apply IH1].
              apply prefix_cons in Hs as [_ Hs].
              destruct m as [| x [| y m'']]; try discriminate.
              ** apply prefix_cons in Hs as [_ Hs].
                 apply prefix_cons in Hs as [E _]. congruence.
              ** apply prefix_cons in Hs as [_ Hs].
                 apply prefix_cons in Hs as [_ Hs].
                 destruct m''; discriminate.
           ++ destruct (is_digit c2 && Ascii.eqb c3 "]"%char) eqn:Hc.
              ** apply andb_true_iff in Hc as [Hd2 Hc3].
                 apply Ascii.eqb_eq in Hc3. subst c3.
                 destruct (digit_not_bracket c2 Hd2) as [Hd2a Hd2b].
                 destruct Hs as [Hs | Hs].
                 --- apply prefix_cons in Hs as [_ Hs].
                     destruct m as [| x [| y m'']]; try discriminate.
                     +++ apply prefix_cons in Hs as [_ Hs].
                         apply prefix_cons in Hs as [E _]. congruence.
                     +++ apply prefix_cons in Hs as [-> Hs].
                         apply prefix_cons in Hs as [-> Hs].
                         destruct m''; [now left |].
                         simpl in Hm. discriminate.
                 --- right. unfold bracketed in Hs.
                     rewrite str_in_skip in Hs by exact Hd1a.
                     rewrite str_in_skip in Hs by exact Hd2a.
                     rewrite str_in_skip in Hs by discriminate.
                     apply IH; [simpl in Hn; lia | exact Hs].
              ** destruct Hs as [Hs | Hs]; [| now apply IH1].
                 apply prefix_cons in Hs as [_ Hs].
                 destruct m as [| x [| y m'']]; try discriminate.
                 --- apply prefix_cons in Hs as [_ Hs].
                     apply prefix_cons in Hs as [E _]. congruence.
                 --- apply prefix_cons in Hs as [-> Hs].
                     apply prefix_cons in Hs as [-> Hs].
                     destruct m''.
                     +++ apply prefix_cons in Hs as [<- _].
                         simpl in Hm. rewrite Hd1 in Hm. simpl in Hm.
                         rewrite Hm in Hc. discriminate.
                     +++ simpl in Hm. discriminate.
      * destruct Hs as [Hs | Hs]; [| now apply IH1].
        apply prefix_cons in Hs as [_ Hs].
        destruct m as [| x m']; [discriminate |].
        apply prefix_cons in Hs as [-> _].
        simpl in Hm. rewrite Hd1 in Hm. destruct m' as [| ? [|]]; discriminate.
Qed.

Lemma str_in_later u c r : str_in u r = true -> str_in u (String c r) = true.
Proof. intros H. cbn [str_in]. rewrite H. apply orb_true_r. Qed.

Lemma str_in_prefix u s : String.prefix u s = true -> str_in u s = true.
Proof. intros H. destruct s; cbn [str_in]; rewrite H; reflexivity. Qed.

Lemma prefix_nil s : String.prefix "" s = true.
Proof. destruct s; reflexivity. Qed.

(** ... and nothing else is. *)
Lemma findall_sources_sound m :
  forall n s, String.length s <= n ->
  In m (findall_sources s) ->
  is_marker m = true /\ str_in (bracketed m) s = true.
Proof.
  induction n as [| n IH]; intros s Hn Hin.
  - destruct s; [destruct Hin | simpl in Hn; lia].
  - destruct s as [| c s1]; [destruct Hin |]. simpl in Hn.
    assert (In m (findall_sources s1) ->
            is_marker m = true /\ str_in (bracketed m) (String c s1) = true)
      as IH1.
    { intros H. apply IH in H as [H1 H2]; [| lia].
      split; [exact H1 | now apply str_in_later]. }
    cbn [findall_sources] in Hin.
    destruct (Ascii.eqb_spec c "["%char) as [-> | Hc]; [| now apply IH1].
    destruct s1 as [| d1 [| c2 s3]]; try (now apply IH1).
    destruct (is_digit d1) eqn:Hd1; [| now apply IH1].
    destruct (Ascii.eqb_spec c2 "]"%char) as [-> | Hc2].
    + destruct Hin as [<- | Hin].
      * split; [exact Hd1 |]. apply str_in_prefix. unfold bracketed.
        apply prefix_cons. split; [reflexivity |]. simpl append.
        apply prefix_cons. split; [reflexivity |].
        apply prefix_cons. split; [reflexivity |]. apply prefix_nil.
      * apply IH in Hin as [H1 H2]; [| simpl in Hn; lia].
        split; [exact H1 |]. now do 3 apply str_in_later.
    + destruct s3 as [| c3 s4]; [now apply IH1 |].
      destruct (is_digit c2 && Ascii.eqb c3 "]"%char) eqn:Hc;
        [| now apply IH1].
      apply andb_true_iff in Hc as [Hd2 Hc3]. apply Ascii.eqb_eq in Hc3.
      subst c3. destruct Hin as [<- | Hin].
      * split; [simpl; now rewrite Hd1, Hd2 |]. apply str_in_prefix.
        unfold bracketed. simpl append.
        repeat (apply prefix_cons; split; [reflexivity |]). apply prefix_nil.
      * apply IH in Hin as [H1 H2]; [| simpl in Hn; lia].
        split; [exact H1 |]. now do 4 apply str_in_later.
Qed.

Lemma findall_sources_spec m s :
  In m (findall_sources s) <->
  is_marker m = true /\ str_in (bracketed m) s = true.
Proof.
  split.
  - now apply (findall_sources_sound m (String.length s) s).
  - intros [Hm Hs].
    now apply (findall_sources_complete m Hm (String.length s) s).
Qed.

End TextFacts.

(* ================================================================= *)
(** ** Facts about trees and document order                           *)
(* ================================================================= *)

Module SoupFacts.
Import Text Soup Scraper Spec.

(** Induction on trees, with the hypothesis for every child. *)
Lemma node_induction (P : node -> Prop) :
  (forall s, P (NavigableString s)) ->
  (forall nm attrs cs, Forall P cs -> P (Tag nm attrs cs)) ->
  forall n, P n.
Proof.
  intros Hs Ht. fix IH 1. intros [s | nm attrs cs]; [apply Hs | apply Ht].
  induction cs as [| c r IHr]; constructor; [apply IH | apply IHr].
Qed.

Lemma elements_tag nm attrs cs :
  elements (Tag nm attrs cs) = [] :: elements_from 0 cs.
Proof.
  simpl. apply f_equal. generalize 0.
  induction cs as [| c r IH]; intros k; simpl; [reflexivity |].
  now rewrite IH.
Qed.

Lemma get_text_tag nm attrs cs :
  get_text (Tag nm attrs cs) = text_of_list cs.
Proof.
  simpl. induction cs as [| c r IH]; simpl; [reflexivity |].
  now rewrite IH.
Qed.

Lemma path_eqb_eq p q : path_eqb p q = true <-> p = q.
Proof.
  unfold path_eqb. destruct (list_eq_dec Nat.eq_dec p q); split; congruence.
Qed.

Lemma path_eqb_refl p : path_eqb p p = true.
Proof. now apply path_eqb_eq. Qed.

Lemma path_eqb_neq p q : path_eqb p q = false <-> p <> q.
Proof.
  unfold path_eqb. destruct (list_eq_dec Nat.eq_dec p q); split; congruence.
Qed.

(** The positions listed for the children number [k], [k+1], ... *)
Lemma in_elements_from k cs i q :
  In (i :: q) (elements_from k cs) <->
  exists c, k <= i /\ nth_error cs (i - k) = Some c /\ In q (elements c).
Proof.
  revert k. induction cs as [| c r IH]; intros k; simpl.
  - split; [tauto | intros (c & _ & H & _)]. now destruct (i - k).
  - rewrite in_app_iff, in_map_iff, IH. split.
    + intros [(q' & E & Hq) | (c' & Hk & Hn & Hq)].
      * injection E as <- <-. exists c. rewrite Nat.sub_diag. auto.
      * exists c'. split; [lia |]. split; [| exact Hq].
        replace (i - k) with (S (i - S k)) by lia. exact Hn.
    + intros (c' & Hk & Hn & Hq).
      destruct (Nat.eq_dec i k) as [-> | Hne].
      * rewrite Nat.sub_diag in Hn. injection Hn as <-. left. now exists q.
      * right. exists c'. split; [lia |]. split; [| exact Hq].
        replace (i - k) with (S (i - S k)) in Hn by lia. exact Hn.
Qed.

Lemma nil_not_in_elements_from k cs : ~ In [] (elements_from k cs).
Proof.
  revert k. induction cs as [| c r IH]; intros k; simpl; [tauto |].
  rewrite in_app_iff, in_map_iff. intros [(q & E & _) | H]; [discriminate |].
  now apply IH in H.
Qed.

(** The listed positions are exactly the positions of the tree. *)
Lemma in_elements n : forall q, In q (elements n) <-> get n q <> None.
Proof.
  induction n as [s | nm attrs cs IH] using node_induction; intros q.
  - destruct q as [| i q]; simpl; split; intros H.
    + discriminate.
    + now left.
    + destruct H as [H | []]. discriminate.
    + congruence.
  - rewrite elements_tag. destruct q as [| i q]; simpl.
    + split; [discriminate | auto].
    + split.
      * intros [E | H]; [discriminate |].
        apply in_elements_from in H as (c & _ & Hn & Hq).
        rewrite Nat.sub_0_r in Hn. rewrite Hn.
        rewrite Forall_forall in IH. apply IH; [| exact Hq].
        eapply nth_error_In; eauto.
      * intros H. right. apply in_elements_from.
        destruct (nth_error cs i) as [c |] eqn:Hn; [| congruence].
        exists c. rewrite Nat.sub_0_r. repeat split; [lia | exact Hn |].
        rewrite Forall_forall in IH. apply IH; [| exact H].
        eapply nth_error_In; eauto.
Qed.

Lemma get_app n p q :
  get n (p ++ q) = match get n p with Some m => get m q | None => None end.
Proof.
  revert n. induction p as [| i p IH]; intros n; simpl; [reflexivity |].
  destruct n as [s | nm attrs cs]; [reflexivity |].
  destruct (nth_error cs i); [apply IH | reflexivity].
Qed.

Lemma elements_head n : exists l, elements n = [] :: l /\ ~ In [] l.
Proof.
  destruct n as [s | nm attrs cs].
  - exists []. simpl. auto.
  - exists (elements_from 0 cs). rewrite elements_tag. split; [reflexivity |].
    apply nil_not_in_elements_from.
Qed.

(** A position is a strict descendant of [p] when it extends [p] by a
    non-empty position of the subtree at [p]. *)
Lemma in_descendants root p x :
  In x (descendants root p) <->
  exists q, x = p ++ q /\ q <> [] /\ get root x <> None /\ get root p <> None.
Proof.
  unfold descendants. destruct (get root p) as [n |] eqn:Hp.
  - destruct (elements_head n) as (l & El & Hnil).
    pose proof (in_elements n) as Hin. rewrite El in Hin. rewrite El. simpl.
    rewrite in_map_iff. split.
    + intros (q & <- & Hq). exists q. split; [reflexivity |].
      split; [intros ->; contradiction |]. split; [| discriminate].
      rewrite get_app, Hp. apply Hin. now right.
    + intros (q & -> & Hne & Hx & _). exists q. split; [reflexivity |].
      rewrite get_app, Hp in Hx. apply Hin in Hx. destruct Hx as [E | H]; [| exact H].
      now subst.
  - simpl. split; [tauto |]. intros (q & _ & _ & _ & H). congruence.
Qed.

Lemma NoDup_elements_from k cs :
  Forall (fun c => NoDup (elements c)) cs -> NoDup (elements_from k cs).
Proof.
  intros H. revert k. induction H as [| c r Hc _ IH]; intros k; simpl.
  - constructor.
  - apply NoDup_app.
    + apply Injective_map_NoDup; [| exact Hc].
      intros x y E. now injection E.
    + apply IH.
    + intros x Hx Hy. apply in_map_iff in Hx as (q & <- & _).
      apply in_elements_from in Hy as (_ & Hk & _). lia.
Qed.

Lemma NoDup_elements n : NoDup (elements n).
Proof.
  induction n as [s | nm attrs cs IH] using node_induction.
  - simpl. constructor; [intros [] | constructor].
  - rewrite elements_tag. constructor.
    + apply nil_not_in_elements_from.
    + now apply NoDup_elements_from.
Qed.

Lemma before_split p l1 l3 acc :
  ~ In p l1 -> before p (l1 ++ p :: l3) acc = rev l1 ++ acc.
Proof.
  revert acc. induction l1 as [| q l1 IH]; intros acc Hn; simpl.
  - now rewrite path_eqb_refl.
  - destruct (path_eqb q p) eqn:E.
    + apply path_eqb_eq in E. subst. exfalso. apply Hn. now left.
    + rewrite IH by (intros H; apply Hn; now right).
      now rewrite <- app_assoc.
Qed.


(** A position of the tree splits the listing in exactly one way. *)
Lemma elements_split root p :
  get root p <> None ->
  exists l1 l3, elements root = l1 ++ p :: l3 /\ ~ In p l1 /\ ~ In p l3.
Proof.
  intros H. apply in_elements in H. apply in_split in H as (l1 & l3 & E).
  exists l1, l3. split; [exact E |].
  pose proof (NoDup_elements root) as N. rewrite E in N.
  apply NoDup_remove_2 in N. rewrite in_app_iff in N. tauto.
Qed.

Lemma split_unique (p : path) l1 l3 m1 m3 :
  l1 ++ p :: l3 = m1 ++ p :: m3 -> ~ In p l1 -> ~ In p m1 ->
  l1 = m1 /\ l3 = m3.
Proof.
  revert m1. induction l1 as [| a l1 IH]; intros [| b m1] E H1 H2; simpl in *.
  - injection E as ->. auto.
  - injection E as <- _. exfalso. apply H2. now left.
  - injection E as -> _. exfalso. apply H1. now left.
  - injection E as -> E. destruct (IH m1 E) as [-> ->]; auto.
Qed.

Lemma find_rev_none {A} (f : A -> bool) l :
  List.find f (rev l) = None <-> forall x, In x l -> f x = false.
Proof.
  split.
  - intros H x Hx. eapply find_none in H; [exact H |]. now apply -> in_rev.
  - intros H. destruct (List.find f (rev l)) as [x |] eqn:E; [| reflexivity].
    apply find_some in E as [Hx Hf]. apply in_rev in Hx.
    rewrite (H x Hx) in Hf. discriminate.
Qed.


Lemma find_app_r {A} (f : A -> bool) l1 l2 :
  List.find f l1 = None -> List.find f (l1 ++ l2) = List.find f l2.
Proof.
  induction l1 as [| a l1 IH]; simpl; [reflexivity |].
  destruct (f a); [discriminate | auto].
Qed.

Lemma find_rev_some {A} (f : A -> bool) l x :
  List.find f (rev l) = Some x <->
  exists l0 l2, l = l0 ++ x :: l2 /\ f x = true /\
                forall y, In y l2 -> f y = false.
Proof.
  split.
  - induction l as [| a l IH] using rev_ind; simpl; [discriminate |].
    rewrite rev_app_distr. simpl. destruct (f a) eqn:Fa.
    + intros E. injection E as <-. exists l, []. repeat split; auto.
      intros y [].
    + intros E. apply IH in E as (l0 & l2 & -> & Fx & Hl2).
      exists l0, (l2 ++ [a]). rewrite <- app_assoc. repeat split; auto.
      intros y Hy. apply in_app_iff in Hy as [Hy | [<- | []]]; auto.
  - intros (l0 & l2 & -> & Fx & Hl2).
    rewrite rev_app_distr. simpl. rewrite <- app_assoc.
    rewrite find_app_r by (now apply find_rev_none).
    simpl. now rewrite Fx.
Qed.

(** [find_previous] returns the nearest match before the element. *)
Lemma find_previous_none root f p :
  get root p <> None ->
  (find_previous root f p = None <-> none_preceding root f p).
Proof.
  intros Hp. destruct (elements_split root p Hp) as (l1 & l3 & E & H1 & H3).
  unfold find_previous, previous_elements. rewrite E, before_split by exact H1.
  rewrite app_nil_r, find_rev_none. split.
  - intros H. now exists l1, l3.
  - intros (m1 & m3 & E' & H) q Hq. rewrite E in E'.
    assert (~ In p m1) as H1'.
    { intros Hin. pose proof (NoDup_elements root) as N.
      rewrite E, E' in N. apply NoDup_remove_2 in N. apply N.
      apply in_app_iff. now left. }
    destruct (split_unique _ _ _ _ _ E' H1 H1') as [-> _]. now apply H.
Qed.

Lemma find_previous_some root f p h :
  get root p <> None ->
  (find_previous root f p = Some h <-> nearest_preceding root f h p).
Proof.
  intros Hp. destruct (elements_split root p Hp) as (l1 & l3 & E & H1 & H3).
  unfold find_previous, previous_elements. rewrite E, before_split by exact H1.
  rewrite app_nil_r, find_rev_some. split.
  - intros (l0 & l2 & -> & Fh & Hl2). exists l0, l2, l3.
    rewrite E, <- app_assoc. simpl. auto.
  - intros (m1 & m2 & m3 & E' & Fh & Hm2). rewrite E in E'.
    replace (m1 ++ h :: m2 ++ p :: m3) with ((m1 ++ h :: m2) ++ p :: m3) in E'
      by (rewrite <- app_assoc; reflexivity).
    assert (~ In p (m1 ++ h :: m2)) as H1'.
    { intros Hin. pose proof (NoDup_elements root) as N.
      rewrite E, E' in N. apply NoDup_remove_2 in N. apply N.
      apply in_app_iff. now left. }
    destruct (split_unique _ _ _ _ _ E' H1 H1') as [-> _].
    exists m1, m2. auto.
Qed.

(** *** Text and replacement *)

Lemma append_nil_r (s : string) : (s ++ "")%string = s.
Proof. induction s as [| c r IH]; simpl; [reflexivity | now rewrite IH]. Qed.

Lemma append_assoc (a b c : string) :
  ((a ++ b) ++ c)%string = (a ++ b ++ c)%string.
Proof. induction a as [| x a IH]; simpl; [reflexivity | now rewrite IH]. Qed.

Lemma text_of_list_app l1 l2 :
  text_of_list (l1 ++ l2) = (text_of_list l1 ++ text_of_list l2)%string.
Proof.
  induction l1 as [| c r IH]; simpl; [reflexivity |].
  now rewrite IH, append_assoc.
Qed.

Lemma replace_nth_split {A} (l : list A) i c :
  nth_error l i = Some c ->
  exists l1 l2, l = l1 ++ c :: l2 /\ List.length l1 = i /\
                forall x, replace_nth i x l = l1 ++ x :: l2.
Proof.
  revert i. induction l as [| a l IH]; intros [| i]; simpl; try discriminate.
  - intros E. injection E as ->. now exists [], l.
  - intros E. apply IH in E as (l1 & l2 & -> & <- & H).
    exists (a :: l1), l2. split; [reflexivity |]. split; [reflexivity |].
    intros x. simpl. now rewrite H.
Qed.

Lemma nth_error_replace_nth {A} (l : list A) i c x :
  nth_error l i = Some c -> nth_error (replace_nth i x l) i = Some x.
Proof.
  revert i. induction l as [| a l IH]; intros [| i]; simpl; try discriminate;
    auto.
Qed.

Lemma length_replace_nth {A} (l : list A) i x :
  List.length (replace_nth i x l) = List.length l.
Proof.
  revert i. induction l as [| a l IH]; intros [| i]; simpl; auto.
Qed.

(** The text of a tree is the text around a subtree with the text of
    the subtree in between, and replacing the subtree replaces its part. *)
Lemma get_text_replace_at q : forall n m,
  get n q = Some m ->
  exists pre post,
    get_text n = (pre ++ get_text m ++ post)%string /\
    forall new, get_text (replace_at n q new) =
                (pre ++ get_text new ++ post)%string.
Proof.
  induction q as [| i q IH]; intros n m; simpl.
  - intros E. injection E as <-. exists ""%string, ""%string. simpl.
    split; [now rewrite append_nil_r |]. intros new. now rewrite append_nil_r.
  - destruct n as [s | nm attrs cs]; [discriminate |].
    destruct (nth_error cs i) as [c |] eqn:En; [| discriminate].
    intros E. destruct (IH c m E) as (pre & post & Ht & Hr).
    destruct (replace_nth_split cs i c En) as (l1 & l2 & -> & _ & Hl).
    exists (text_of_list l1 ++ pre)%string, (post ++ text_of_list l2)%string.
    split.
    + rewrite get_text_tag, text_of_list_app. simpl. rewrite Ht.
      now rewrite !append_assoc.
    + intros new. rewrite Hl, get_text_tag, text_of_list_app. simpl.
      rewrite Hr. now rewrite !append_assoc.
Qed.



(** *** The elements of a subtree are listed together *)





End SoupFacts.

(* ================================================================= *)
(** ** The Section Classifier and the Corroboration Checker           *)
(* ================================================================= *)

Module CheckerFacts.
Import Text Soup Scraper Spec SoupFacts.

Lemma test_some root f p : test root f p = true -> get root p <> None.
Proof. unfold test. destruct (get root p); [discriminate | discriminate]. Qed.

(** X23.  For a paragraph or a table [relevant_section] returns [True]
    if and only if no [h2] comes before the tag in document order or
    the text of the first [span] below the nearest [h2] before it
    contains "economy" once lower-cased; for a tag of any other name it
    returns [None]. *)
Theorem relevant_section_spec soup tag :
  (is_paragraph_or_table soup tag = true ->
   (relevant_section soup tag = Return (Some true) <->
    none_preceding soup (named "h2") tag \/
    exists h label,
      nearest_preceding soup (named "h2") h tag /\
      first_span_text soup h = Some label /\
      str_in "economy" (lower label) = true)) /\
  (is_paragraph_or_table soup tag = false ->
   relevant_section soup tag = Return None /\ truthy None = false).
Proof.
  unfold is_paragraph_or_table, relevant_section, first_span_text. split.
  - intros Hk. rewrite Hk.
    assert (get soup tag <> None) as Hp.
    { apply orb_true_iff in Hk as [H | H]; eapply test_some; eauto. }
    destruct (find_previous soup (named "h2") tag) as [h |] eqn:Eh.
    + apply find_previous_some in Eh; [| exact Hp].
      assert (~ none_preceding soup (named "h2") tag) as Hnone.
      { intros Hn. apply find_previous_none in Hn; [| exact Hp].
        apply find_previous_some in Eh; [| exact Hp]. congruence. }
      assert (forall h', nearest_preceding soup (named "h2") h' tag -> h' = h)
        as Huniq.
      { intros h' Hh'. apply find_previous_some in Hh'; [| exact Hp].
        apply find_previous_some in Eh; [| exact Hp]. congruence. }
      destruct (find soup (named "span") h) as [sp |] eqn:Es; simpl.
      * destruct (str_in "economy" (lower (text_at soup sp))) eqn:Ec.
        -- split; [intros _ | reflexivity]. right.
           exists h, (text_at soup sp). rewrite Es. auto.
        -- split; [discriminate |]. intros [Hn | (h' & lbl & Hh' & El & Hc)].
           ++ contradiction.
           ++ apply Huniq in Hh'. subst h'. rewrite Es in El. simpl in El.
              injection El as <-. congruence.
      * split; [discriminate |]. intros [Hn | (h' & lbl & Hh' & El & Hc)].
        -- contradiction.
        -- apply Huniq in Hh'. subst h'. rewrite Es in El. discriminate.
    + split; [intros _ | reflexivity]. left.
      now apply find_previous_none.
  - intros Hk. rewrite Hk. auto.
Qed.

Lemma count_refs_acc soup uni paras k :
  count_refs soup uni paras k = k + mentions soup uni paras.
Proof.
  unfold mentions. revert k. induction paras as [| p r IH]; intros k; simpl.
  - lia.
  - rewrite IH. destruct (str_in uni (lower (text_at soup p))); simpl; lia.
Qed.

Lemma scan_universities_true soup unis paras :
  scan_universities soup unis paras = true <->
  exists uni, In uni unis /\ 2 <= mentions soup uni paras.
Proof.
  induction unis as [| u r IH]; cbn [scan_universities In].
  - split; [discriminate | intros (? & [] & _)].
  - rewrite count_refs_acc, Nat.add_0_l.
    destruct (2 <=? mentions soup u paras) eqn:E.
    + apply Nat.leb_le in E. split; [| reflexivity]. intros _. exists u. auto.
    + apply Nat.leb_gt in E. rewrite IH. split.
      * intros (uni & Hin & Hm). exists uni. auto.
      * intros (uni & [-> | Hin] & Hm); [lia |]. exists uni. auto.
Qed.

Lemma select_relevant_filter soup l paras :
  select_relevant soup l = Return paras -> paras = filter (in_scope soup) l.
Proof.
  revert paras. induction l as [| p r IH]; intros paras; simpl.
  - intros E. now injection E.
  - unfold in_scope at 1. destruct (test soup is_tag p); simpl; [| apply IH].
    destruct (relevant_section soup p) as [v | e]; [| discriminate].
    destruct (select_relevant soup r) as [l' | e]; [| discriminate].
    intros E. injection E as <-. rewrite (IH l' eq_refl).
    destruct v as [[|] |]; reflexivity.
Qed.

Lemma select_relevant_raises soup l p :
  In p l -> test soup is_tag p = true ->
  relevant_section soup p = Raise AttributeError ->
  select_relevant soup l = Raise AttributeError.
Proof.
  induction l as [| q r IH]; simpl; [tauto |].
  intros [-> | Hin] Ht Hr.
  - now rewrite Ht, Hr.
  - specialize (IH Hin Ht Hr). rewrite IH.
    destruct (test soup is_tag q); [| reflexivity].
    destruct (relevant_section soup q) as [v | e] eqn:E; [reflexivity |].
    unfold relevant_section in E.
    destruct (_ || _); [| discriminate].
    destruct (find_previous _ _ _); [| discriminate].
    destruct (find _ _ _); [| congruence].
    destruct (str_in _ _); discriminate.
Qed.

Lemma in_scope_nodes soup paras :
  find_all_relevant soup = Return paras ->
  forall p, In p paras <->
            In p (descendants soup []) /\ test soup is_tag p = true /\
            relevant_section soup p = Return (Some true).
Proof.
  intros E p. apply select_relevant_filter in E. subst paras.
  rewrite filter_In. unfold in_scope. rewrite andb_true_iff.
  split; intros (H1 & H2 & H3); repeat split; auto.
  - destruct (relevant_section soup p) as [[[|] |] | e]; congruence.
  - now rewrite H3.
Qed.

Section Web.
Variable web : string -> option node.

Lemma check_fetched tag h link href soup :
  fetches web tag h link href soup ->
  check_college_town_status web tag h =
  match find soup (named_with "div" "id" "catlinks") [] with
  | None => (Raise AttributeError, h, [Checked tag; Request (base_url ++ href)])
  | Some category_links =>
      match find_all soup (named_with "a" "href" uni_towns_link) category_links with
      | _ :: _ => (Return true, h, [Checked tag; Request (base_url ++ href)])
      | [] => (slow_path soup (universities_of tag h), h,
               [Checked tag; Request (base_url ++ href); Scanned])
      end
  end.
Proof.
  intros (Hl & Hh & Hw).
  unfold check_college_town_status, requests_get, bind, emit, read, need, ret,
    raise, lift.
  rewrite Hl, Hh, Hw. simpl.
  destruct (find soup _ []) as [cl |]; [| reflexivity].
  destruct (find_all soup _ cl); reflexivity.
Qed.

(** C1.  A candidate that reaches the harder check: its article [soup]
    was fetched and the category-links region has no link to the
    category.  With [paras] the nodes that
    [soup.find_all(relevant_section)] yields, [paras] are exactly the tags
    on which the Section Classifier returns [True], and the checker
    returns [True] if and only if some university name of the entry is
    contained, ignoring case, in the text of at least two of these nodes.
    Nodes outside [paras] are never counted. *)
Theorem slow_path_accepts_iff tag h link href soup paras :
  fetches web tag h link href soup ->
  reaches_slow_path soup ->
  find_all_relevant soup = Return paras ->
  (forall p, In p paras <->
             In p (descendants soup []) /\ test soup is_tag p = true /\
             relevant_section soup p = Return (Some true)) /\
  (value (check_college_town_status web tag h) = Return true <->
   exists uni, In uni (universities_of tag h) /\
               2 <= mentions soup uni paras).
Proof.
  intros Hf (cl & Hc & Hn) Hp. split; [now apply in_scope_nodes |].
  rewrite check_fetched with (link := link) (href := href) (soup := soup)
    by exact Hf.
  rewrite Hc, Hn. unfold slow_path. rewrite Hp.
  unfold value. simpl. rewrite <- scan_universities_true.
  split; [intros E; now injection E | intros ->; reflexivity].
Qed.

(** C3.  When the article of the candidate has a link to the category of
    university towns in its category-links region, the checker returns
    [True] at once: its only events are its call and the request, and
    the result depends neither on the university names nor on what the
    scan of the paragraphs would do. *)
Theorem category_link_accepts tag h link href soup :
  fetches web tag h link href soup ->
  has_category_link soup ->
  check_college_town_status web tag h =
  (Return true, h, [Checked tag; Request (base_url ++ href)]) /\
  ~ In Scanned (events (check_college_town_status web tag h)).
Proof.
  intros Hf (cl & Hc & Hn).
  rewrite check_fetched with (link := link) (href := href) (soup := soup)
    by exact Hf.
  rewrite Hc.
  destruct (find_all soup _ cl); [congruence |].
  split; [reflexivity |]. unfold events. simpl.
  intros [E | [E | []]]; discriminate.
Qed.

(** When the classifier raises on a tag of the article, the slow path
    raises. *)
Lemma slow_path_raises tag h link href soup p :
  fetches web tag h link href soup ->
  reaches_slow_path soup ->
  In p (descendants soup []) ->
  test soup is_tag p = true ->
  relevant_section soup p = Raise AttributeError ->
  value (check_college_town_status web tag h) = Raise AttributeError.
Proof.
  intros Hf (cl & Hc & Hn) Hp Ht Hr.
  rewrite check_fetched with (link := link) (href := href) (soup := soup)
    by exact Hf.
  rewrite Hc, Hn. unfold slow_path, find_all_relevant.
  now rewrite (select_relevant_raises soup _ p Hp Ht Hr).
Qed.

End Web.

End CheckerFacts.

(* ================================================================= *)
(** ** The Town Extractor                                             *)
(* ================================================================= *)

Module ExtractorFacts.
Import Text Soup Scraper Spec TextFacts SoupFacts CheckerFacts.

Ltac run :=
  unfold bind, read, need, ret, raise, emit, lift, value, final_heap, events;
  simpl.

Ltac cases :=
  repeat match goal with
    | |- context [match ?x with _ => _ end] =>
        lazymatch x with
        | context [match _ with _ => _ end] => fail
        | _ => destruct x eqn:?; simpl
        end
    end.

Lemma str_in_occurrences u s : str_in u s = (0 <? occurrences u s).
Proof.
  induction s as [| c r IH]; cbn [str_in occurrences].
  - destruct (String.prefix u ""); reflexivity.
  - rewrite IH. destruct (String.prefix u (String c r)); reflexivity.
Qed.

Lemma filter_none {A} (f : A -> bool) l :
  (forall x, In x l -> f x = false) -> filter f l = [].
Proof.
  induction l as [| a l IH]; intros H; simpl; [reflexivity |].
  rewrite (H a) by now left. apply IH. intros x Hx. apply H. now right.
Qed.

Lemma NoDup_descendants root p : NoDup (descendants root p).
Proof.
  unfold descendants. destruct (get root p) as [n |]; [| constructor].
  apply Injective_map_NoDup.
  - intros x y E. now apply app_inv_head in E.
  - pose proof (NoDup_elements n) as N.
    destruct (elements n); [constructor | now inversion N].
Qed.

Lemma mentions_at_most_one soup uni paras para :
  NoDup paras ->
  (forall p, In p paras -> p <> para ->
             occurrences uni (lower (text_at soup p)) = 0) ->
  mentions soup uni paras <= 1.
Proof.
  unfold mentions. intros N. induction N as [| p r Hp N IH]; intros H; simpl.
  - lia.
  - destruct (list_eq_dec Nat.eq_dec p para) as [-> | Hne].
    + assert (filter (fun q => str_in uni (lower (text_at soup q))) r = [])
        as ->.
      { apply filter_none. intros q Hq. rewrite str_in_occurrences, H; [reflexivity | now right |].
        intros ->. contradiction. }
      destruct (str_in _ _); simpl; lia.
    + rewrite str_in_occurrences, H; [| now left | exact Hne]. simpl.
      apply IH. intros q Hq. apply H. now right.
Qed.

Section Web.
Variable web : string -> option node.

(** C10.  On the slow path each in-scope node adds at most one to the
    count of a university, however often the name occurs in its text;
    so if every university of the entry occurs in at most one in-scope
    node, the checker returns [False]. *)
Theorem one_count_per_node tag h link href soup paras :
  fetches web tag h link href soup ->
  reaches_slow_path soup ->
  find_all_relevant soup = Return paras ->
  (forall uni para rest k,
      count_refs soup uni (para :: rest) k =
      count_refs soup uni rest
        (k + Nat.min 1 (occurrences uni (lower (text_at soup para))))) /\
  ((forall uni, In uni (universities_of tag h) ->
      exists para, forall p, In p paras -> p <> para ->
                   occurrences uni (lower (text_at soup p)) = 0) ->
   value (check_college_town_status web tag h) = Return false).
Proof.
  intros Hf (cl & Hc & Hn) Hp. split.
  - intros uni para rest k. simpl. rewrite str_in_occurrences.
    destruct (occurrences uni (lower (text_at soup para))) as [| [| n]];
      simpl; f_equal; lia.
  - intros Hone.
    rewrite check_fetched with (link := link) (href := href) (soup := soup)
      by exact Hf.
    rewrite Hc, Hn. unfold slow_path, value. rewrite Hp. simpl. f_equal.
    destruct (scan_universities soup (universities_of tag h) paras) eqn:E;
      [| reflexivity].
    apply scan_universities_true in E as (uni & Hin & Hm).
    destruct (Hone uni Hin) as (para & Hpara).
    assert (NoDup paras) as N.
    { apply select_relevant_filter in Hp. subst paras.
      apply NoDup_filter, NoDup_descendants. }
    pose proof (mentions_at_most_one soup uni paras para N Hpara). lia.
Qed.

Lemma check_heap tag h : final_heap (check_college_town_status web tag h) = h.
Proof.
  unfold check_college_town_status, requests_get, slow_path. run. cases;
    reflexivity.
Qed.

Lemma rename_neighborhood_events item h :
  events (rename_neighborhood item h) = [].
Proof.
  unfold rename_neighborhood, is_neighborhood, enclosing_city, set_string.
  run. cases; reflexivity.
Qed.

End Web.

Section Extractor.
Variable web : string -> option node.

Lemma is_neighborhood_pure item h :
  is_neighborhood item h = (value (is_neighborhood item h), h, []).
Proof. unfold is_neighborhood. run. cases; reflexivity. Qed.

Lemma enclosing_city_pure item h :
  enclosing_city item h = (value (enclosing_city item h), h, []).
Proof. unfold enclosing_city. run. cases; reflexivity. Qed.

(** What the two tests say about the tree. *)
Lemma is_neighborhood_spec item h :
  value (is_neighborhood item h) = Return true <-> passes_line_137 item h.
Proof.
  unfold is_neighborhood, passes_line_137.
  cbv beta iota delta [bind need read ret raise value].
  destruct (h_parent item) as [par |] eqn:Ep; simpl.
  - destruct (h_previous_sibling par) as [s1 |] eqn:E1; simpl.
    + destruct (h_previous_sibling s1) as [s2 |] eqn:E2; simpl.
      * split.
        -- intros E. exists par, s1, s2.
           split; [reflexivity |]. split; [exact E1 |].
           split; [exact E2 |].
           intros Hn. rewrite Hn in E. discriminate.
        -- intros (p & a & b & Hp & Ha & Hb & Hn).
           injection Hp as <-. rewrite E1 in Ha. injection Ha as <-.
           rewrite E2 in Hb. injection Hb as <-.
           destruct (h_name s2 h) as [n |]; [| reflexivity].
           destruct (String.eqb n "h3") eqn:E; [| reflexivity].
           apply String.eqb_eq in E. subst n. contradiction.
      * split; [discriminate |].
        intros (p & a & b & Hp & Ha & Hb & _).
        injection Hp as <-. rewrite E1 in Ha. injection Ha as <-.
        congruence.
    + split; [discriminate |].
      intros (p & a & b & Hp & Ha & _). injection Hp as <-. congruence.
  - split; [discriminate |]. intros (p & a & b & Hp & _). discriminate.
Qed.

Lemma enclosing_city_spec item h city :
  value (enclosing_city item h) = Return city <-> line_139_reads item h city.
Proof.
  unfold enclosing_city, line_139_reads.
  cbv beta iota delta [bind need read ret raise value].
  destruct (h_parent item) as [par |] eqn:Ep; simpl.
  - destruct (h_parent par) as [gp |] eqn:Eg; simpl.
    + destruct (h_find_next (named "a") gp h) as [link |] eqn:El; simpl.
      * split.
        -- intros E. injection E as <-. now exists par, gp, link.
        -- intros (p & g & l & Hp & Hg & Hl & <-).
           injection Hp as <-. rewrite Eg in Hg. injection Hg as <-.
           rewrite El in Hl. now injection Hl as <-.
      * split; [discriminate |].
        intros (p & g & l & Hp & Hg & Hl & _).
        injection Hp as <-. rewrite Eg in Hg. injection Hg as <-.
        congruence.
    + split; [discriminate |].
      intros (p & g & l & Hp & Hg & _). injection Hp as <-. congruence.
  - split; [discriminate |]. intros (p & g & l & Hp & _). discriminate.
Qed.

(** The neighborhood step changes the heap in one way only. *)
Lemma rename_neighborhood_frame item h r h' t :
  rename_neighborhood item h = (r, h', t) ->
  h' = h \/
  exists link old city,
    value (is_neighborhood item h) = Return true /\
    value (enclosing_city item h) = Return city /\
    mem city big_cities = true /\
    h_find_next (named "a") item h = Some link /\
    h_string link h = Some old /\
    h' = rewritten h link (old ++ ", " ++ city)%string /\
    r = Return [(link, List.length h)].
Proof.
  unfold rename_neighborhood. unfold bind at 1.
  rewrite is_neighborhood_pure.
  destruct (value (is_neighborhood item h)) as [[|] | e] eqn:En;
    try (intros E; injection E as <- <- <-; now left).
  unfold bind at 1. rewrite enclosing_city_pure.
  destruct (value (enclosing_city item h)) as [city | e] eqn:Ec;
    try (intros E; injection E as <- <- <-; now left).
  destruct (mem city big_cities) eqn:Em;
    try (intros E; injection E as <- <- <-; now left).
  unfold set_string, rewritten. run.
  destruct (h_find_next (named "a") item h) as [link |] eqn:El; simpl;
    try (intros E; injection E as <- <- <-; now left).
  destruct (h_string link h) as [old |] eqn:Eo; simpl;
    try (intros E; injection E as <- <- <-; now left).
  destruct (deref h link) as [[s | nm attrs cs] |] eqn:Ed; simpl;
    try (intros E; injection E as <- <- <-; now left).
  intros E. injection E as <- <- <-. right. exists link, old, city.
  rewrite Ed. repeat split; auto.
Qed.

(** The checker only reads. *)
Lemma town_body_unfold item towns h :
  town_body web item towns h =
  match h_find_all (named "ul") item h with
  | _ :: _ => (Return (towns, []), h, [])
  | [] =>
      match rename_neighborhood item h with
      | (Return moved, h1, _) =>
          let line := h_text item h1 in
          if sources_are_good (findall_sources line) then
            (Return (towns ++ [(line ++ newline)%string], moved), h1, [])
          else
            match check_college_town_status web item h1 with
            | (Return true, _, t) =>
                (Return (towns ++ [(line ++ newline)%string], moved), h1, t)
            | (Return false, _, t) => (Return (towns, moved), h1, t)
            | (Raise e, _, t) => (Raise e, h1, t)
            end
      | (Raise e, h1, _) => (Raise e, h1, [])
      end
  end.
Proof.
  cbv beta iota delta [town_body bind read ret].
  destruct (h_find_all (named "ul") item h); [| reflexivity].
  pose proof (rename_neighborhood_events item h) as Ev.
  destruct (rename_neighborhood item h) as [[[moved | e] h1] t];
    unfold events in Ev; simpl in Ev; subst t; [| reflexivity].
  cbv beta iota zeta.
  destruct (sources_are_good _); [reflexivity |].
  pose proof (check_heap web item h1) as Hh.
  destruct (check_college_town_status web item h1) as [[[[|] | e] h2] t];
    unfold final_heap in Hh; simpl in Hh; subst h2; simpl;
    rewrite ?app_nil_r; reflexivity.
Qed.

Lemma mem_In x l : mem x l = true <-> In x l.
Proof.
  unfold mem. rewrite existsb_exists. split.
  - intros (y & Hy & E). apply String.eqb_eq in E. now subst.
  - intros H. exists x. split; [exact H | apply String.eqb_refl].
Qed.

Lemma count_members good l :
  list_sum (map (fun x => if mem x good then 1 else 0) l) <> 0 <->
  exists m, In m l /\ In m good.
Proof.
  induction l as [| x l IH]; simpl.
  - split; [intros H; now elim H | intros (? & [] & _)].
  - destruct (mem x good) eqn:Ex.
    + split; [intros _ | discriminate].
      exists x. split; [now left | now apply mem_In].
    + simpl. rewrite IH. split.
      * intros (m & Hin & Hg). exists m. auto.
      * intros (m & [-> | Hin] & Hg); [| exists m; auto].
        apply mem_In in Hg. congruence.
Qed.

Lemma sources_are_good_iff sources :
  sources_are_good sources = true <->
  exists marker, In marker sources /\ In marker good_sources.
Proof.
  unfold sources_are_good. destruct sources as [| x l].
  - split; [discriminate | intros (? & [] & _)].
  - rewrite negb_true_iff, Nat.eqb_neq. apply count_members.
Qed.

Lemma good_sources_are_markers m :
  In m good_sources -> is_marker m = true.
Proof.
  unfold good_sources. simpl.
  intros H; repeat (destruct H as [<- | H]; [reflexivity |]); destruct H.
Qed.

(** C2.  A candidate (an entry that is not skipped and whose neighborhood
    step succeeded) whose text contains a bracketed marker of the trusted
    list is accepted: its line is appended, and the round emits no event
    at all, so the checker is not called and no request is made,
    whatever the network is. *)
Theorem trusted_citation_accepts item towns h moved h' t marker :
  h_find_all (named "ul") item h = [] ->
  rename_neighborhood item h = (Return moved, h', t) ->
  In marker good_sources ->
  str_in (bracketed marker) (h_text item h') = true ->
  town_body web item towns h =
  (Return (towns ++ [(h_text item h' ++ newline)%string], moved), h', []).
Proof.
  intros Hul Hr Hgood Hin. rewrite town_body_unfold, Hul, Hr. simpl.
  assert (sources_are_good (findall_sources (h_text item h')) = true) as ->.
  { apply sources_are_good_iff. exists marker. split; [| exact Hgood].
    apply findall_sources_spec. split; [| exact Hin].
    now apply good_sources_are_markers. }
  reflexivity.
Qed.

(** An element found below an element found below [ul] is found
    below [ul]. *)
Lemma h_find_all_nested f g ul item child h :
  In item (h_find_all f ul h) ->
  In child (h_find_all g item h) ->
  In child (h_find_all g ul h).
Proof.
  unfold h_find_all, find_all. rewrite !in_map_iff.
  intros (p & <- & Hp) (q & <- & Hq).
  apply filter_In in Hp as [Hp _]. apply filter_In in Hq as [Hq Hg].
  unfold in_tree, root_of in *. simpl in *.
  exists q. split; [reflexivity |]. apply filter_In. split; [| exact Hg].
  apply in_descendants in Hp as (p1 & -> & Hp1 & Hv1 & Hul).
  apply in_descendants in Hq as (q1 & -> & Hq1 & Hv2 & _).
  apply in_descendants. exists (p1 ++ q1). rewrite app_assoc.
  repeat split; auto. intros E. apply app_eq_nil in E as [E _]. auto.
Qed.

(** What the extractor does with an entry that has a nested unordered
    list. *)
Lemma town_loop_skip item rest moves towns h :
  h_find_all (named "ul") (relocate_all moves item) h <> [] ->
  town_loop web (item :: rest) moves towns h =
  town_loop web rest moves towns h.
Proof.
  intros Hul. cbn [town_loop]. unfold bind.
  rewrite town_body_unfold.
  destruct (h_find_all (named "ul") (relocate_all moves item) h);
    [congruence |].
  simpl. rewrite app_nil_r.
  destruct (town_loop web rest moves towns h) as [[out h2] t2]. reflexivity.
Qed.

(** C8, as amended.  An entry with a nested unordered list is skipped: its
    round returns the towns as they were, with no event and no change of
    the heap; the loop goes on with the remaining entries; and the
    entries below it are entries of the list the loop runs over. *)
Theorem nested_unordered_list_skipped item rest towns h :
  h_find_all (named "ul") item h <> [] ->
  town_body web item towns h = (Return (towns, []), h, []) /\
  town_loop web (item :: rest) [] towns h =
  town_loop web rest [] towns h /\
  (forall ul child,
      In item (h_find_all (named "li") ul h) ->
      In child (h_find_all (named "li") item h) ->
      In child (h_find_all (named "li") ul h)).
Proof.
  intros Hul. split; [| split].
  - rewrite town_body_unfold.
    destruct (h_find_all (named "ul") item h); [congruence | reflexivity].
  - now apply town_loop_skip.
  - intros ul child. apply h_find_all_nested.
Qed.

(** The only assignment of the extractor is the one of line 141. *)
Lemma town_body_frame item towns h r h' t :
  town_body web item towns h = (r, h', t) ->
  h' = h \/
  exists link old city,
    value (is_neighborhood item h) = Return true /\
    value (enclosing_city item h) = Return city /\
    mem city big_cities = true /\
    h_find_next (named "a") item h = Some link /\
    h_string link h = Some old /\
    h' = rewritten h link (old ++ ", " ++ city)%string.
Proof.
  intros E. rewrite town_body_unfold in E.
  destruct (h_find_all (named "ul") item h).
  - destruct (rename_neighborhood item h) as [[r1 h1] t1] eqn:Er.
    assert (h' = h1) as ->.
    { destruct r1 as [moved | e]; [| now injection E].
      cbv zeta in E. destruct (sources_are_good _); [now injection E |].
      destruct (check_college_town_status web item h1) as [[[[|] | e] h2] t2];
        now injection E. }
    apply rename_neighborhood_frame in Er
      as [-> | (link & old & city & H1 & H2 & H3 & H4 & H5 & H6 & _)];
      [now left | right].
    exists link, old, city. auto 10.
  - injection E as _ <- _. now left.
Qed.

Lemma rename_neighborhood_eq item h city :
  value (is_neighborhood item h) = Return true ->
  value (enclosing_city item h) = Return city ->
  rename_neighborhood item h =
  if mem city big_cities then
    match h_find_next (named "a") item h with
    | None => (Raise AttributeError, h, [])
    | Some link =>
        match h_string link h with
        | None => (Raise TypeError, h, [])
        | Some old =>
            match deref h link with
            | Some (Tag _ _ _) =>
                (Return [(link, List.length h)],
                 rewritten h link (old ++ ", " ++ city)%string, [])
            | _ => (Raise AttributeError, h, [])
            end
        end
    end
  else (Return [], h, []).
Proof.
  intros Hn Hc. unfold rename_neighborhood. unfold bind at 1.
  rewrite is_neighborhood_pure, Hn. unfold bind at 1.
  rewrite enclosing_city_pure, Hc.
  destruct (mem city big_cities); [| reflexivity].
  unfold set_string, rewritten. run.
  destruct (h_find_next (named "a") item h) as [link |]; [| reflexivity].
  simpl. destruct (h_string link h) as [old |]; [| reflexivity].
  simpl. destruct (deref h link) as [[s | nm attrs cs] |]; reflexivity.
Qed.

Lemma h_find_next_tag f item h link :
  h_find_next f item h = Some link ->
  fst link = fst item /\ test (root_of h item) f (snd link) = true.
Proof.
  unfold h_find_next, find_next.
  destruct (List.find _ _) as [q |] eqn:E; [| discriminate].
  intros H. injection H as <-. split; [reflexivity |].
  now apply find_some in E.
Qed.



(** C6, as amended.  If the request for the article of a candidate
    fails, the checker raises [ConnectionError]; the round of the
    extractor and its loop over the entries end with the same exception,
    whatever entries remain. *)
Theorem fetch_failure_aborts entry moves rest towns h item moved h1 t link
    href :
  relocate_all moves entry = item ->
  h_find_all (named "ul") item h = [] ->
  rename_neighborhood item h = (Return moved, h1, t) ->
  sources_are_good (findall_sources (h_text item h1)) = false ->
  h_find_next (named "a") item h1 = Some link ->
  h_attr "href" link h1 = Some href ->
  web (base_url ++ href)%string = None ->
  check_college_town_status web item h1 =
  (Raise ConnectionError, h1,
   [Checked item; Request (base_url ++ href)%string]) /\
  town_body web item towns h =
  (Raise ConnectionError, h1,
   [Checked item; Request (base_url ++ href)%string]) /\
  town_loop web (entry :: rest) moves towns h =
  (Raise ConnectionError, h1,
   [Checked item; Request (base_url ++ href)%string]).
Proof.
  intros Hitem Hul Hr Hs Hl Hh Hw.
  assert (check_college_town_status web item h1 =
          (Raise ConnectionError, h1,
           [Checked item; Request (base_url ++ href)%string])) as Hc.
  { cbv beta iota zeta delta
      [check_college_town_status requests_get bind emit read need ret raise].
    rewrite Hl. cbv beta iota. rewrite Hh. cbv beta iota. rewrite Hw.
    reflexivity. }
  assert (town_body web item towns h =
          (Raise ConnectionError, h1,
           [Checked item; Request (base_url ++ href)%string])) as Hb.
  { rewrite town_body_unfold, Hul, Hr. cbv zeta. rewrite Hs, Hc.
    reflexivity. }
  repeat split; auto.
  cbn [town_loop]. unfold bind. now rewrite Hitem, Hb.
Qed.

(** *** The neighborhood rewrite *)




End Extractor.

End ExtractorFacts.

(* ================================================================= *)
(** ** The Pipeline Driver                                            *)
(* ================================================================= *)

Module PipelineFacts.
Import Text Soup Scraper Spec SoupFacts CheckerFacts ExtractorFacts.

(** *** The loop over the headings ends *)

Lemma after_length p l : List.length (after p l) <= List.length l.
Proof.
  induction l as [| q l IH]; simpl; [lia |].
  destruct (path_eqb q p); lia.
Qed.

Lemma after_app_in p l x : In p l -> after p (l ++ x) = after p l ++ x.
Proof.
  induction l as [| q l IH]; simpl; [tauto |].
  destruct (path_eqb q p) eqn:E; [reflexivity |].
  intros [-> | H]; [| now apply IH].
  rewrite path_eqb_refl in E. discriminate.
Qed.

Lemma after_app_out p l x : ~ In p l -> after p (l ++ x) = after p x.
Proof.
  induction l as [| q l IH]; simpl; [reflexivity |].
  intros H. destruct (path_eqb q p) eqn:E.
  - apply path_eqb_eq in E. subst. tauto.
  - apply IH. tauto.
Qed.

(** Deleting a block of a listing does not lengthen what comes after a
    position. *)
Lemma after_delete p l d r :
  List.length (after p (l ++ r)) <= List.length (after p (l ++ d ++ r)).
Proof.
  destruct (in_dec (list_eq_dec Nat.eq_dec) p l) as [Hl | Hl].
  - rewrite !after_app_in by exact Hl. rewrite !length_app. lia.
  - rewrite !after_app_out by exact Hl.
    destruct (in_dec (list_eq_dec Nat.eq_dec) p d) as [Hd | Hd].
    + rewrite after_app_in by exact Hd. rewrite length_app.
      pose proof (after_length p r). lia.
    + rewrite after_app_out by exact Hd. lia.
Qed.

Lemma elements_from_app k l1 l2 :
  elements_from k (l1 ++ l2) =
  elements_from k l1 ++ elements_from (k + List.length l1) l2.
Proof.
  revert k. induction l1 as [| c l1 IH]; intros k; simpl.
  - now rewrite Nat.add_0_r.
  - rewrite IH, <- app_assoc.
    replace (k + S (List.length l1)) with (S k + List.length l1) by lia.
    reflexivity.
Qed.

(** Replacing a subtree replaces its block in the listing. *)
Lemma elements_replace_at a : forall n m,
  get n a = Some m ->
  exists l1 l3,
    elements n = l1 ++ map (app a) (elements m) ++ l3 /\
    forall new,
      elements (replace_at n a new) = l1 ++ map (app a) (elements new) ++ l3.
Proof.
  induction a as [| i a IH]; intros n m; simpl.
  - intros E. injection E as <-. exists [], []. simpl.
    split; [now rewrite map_id, app_nil_r |].
    intros new. now rewrite map_id, app_nil_r.
  - destruct n as [s | nm attrs cs]; [discriminate |].
    destruct (nth_error cs i) as [c |] eqn:En; [| discriminate].
    intros E. destruct (IH c m E) as (l1 & l3 & Hc & Hr).
    destruct (replace_nth_split cs i c En) as (c1 & c2 & -> & <- & Hl).
    exists ([] :: elements_from 0 c1 ++ map (cons (List.length c1)) l1),
      (map (cons (List.length c1)) l3 ++
       elements_from (S (List.length c1)) c2).
    split.
    + rewrite elements_tag, elements_from_app. simpl. rewrite Hc.
      rewrite !map_app, map_map. rewrite <- !app_assoc. reflexivity.
    + intros new. rewrite Hl, elements_tag, elements_from_app. simpl.
      rewrite Hr. rewrite !map_app, map_map. rewrite <- !app_assoc.
      reflexivity.
Qed.

(** The [.string] setter on a tag with an only child. *)
Lemma next_elements_set_string root a nm attrs c s p :
  get root a = Some (Tag nm attrs [c]) ->
  List.length
    (next_elements (replace_at root a (Tag nm attrs [NavigableString s])) p)
  <= List.length (next_elements root p).
Proof.
  intros Ha. destruct (elements_replace_at a root _ Ha) as (l1 & l3 & E & Hr).
  unfold next_elements. rewrite (Hr (Tag nm attrs [NavigableString s])), E.
  rewrite elements_tag. destruct (elements_head c) as (lc & Ec & _).
  simpl. rewrite Ec. simpl. rewrite !app_nil_r.
  pose proof (after_delete p (l1 ++ [a; a ++ [0]])
                (map (app a) (map (cons 0) lc)) l3) as H.
  rewrite <- !app_assoc in H. simpl in H. exact H.
Qed.

Lemma find_next_later root f p q :
  find_next root f p = Some q ->
  List.length (next_elements root q) < List.length (next_elements root p).
Proof.
  unfold find_next, next_elements. intros H.
  apply find_some in H as [Hq _].
  pose proof (NoDup_elements root) as N.
  revert Hq N. generalize (elements root) as l.
  induction l as [| x l IH]; simpl; [tauto |].
  intros Hq N. inversion N as [| ? ? Hx N']; subst.
  destruct (path_eqb x p) eqn:Ep.
  - destruct (path_eqb x q) eqn:Eq.
    + apply path_eqb_eq in Eq. subst. contradiction.
    + clear IH Ep N Hx. induction l as [| y l IH]; simpl in *; [tauto |].
      inversion N' as [| ? ? Hy N'']; subst.
      destruct (path_eqb y q) eqn:Ey; [lia |].
      destruct Hq as [-> | Hq]; [rewrite path_eqb_refl in Ey; discriminate |].
      specialize (IH Hq N''). lia.
  - destruct (path_eqb x q) eqn:Eq.
    + apply path_eqb_eq in Eq. subst. exfalso. apply Hx.
      clear - Hq. induction l as [| y l IH]; simpl in *; [tauto |].
      destruct (path_eqb y p); [now right |]. right. now apply IH.
    + now apply IH.
Qed.

(** *** Document order *)

Lemma comes_before_irrefl p : ~ comes_before p p.
Proof.
  induction p as [| i p IH]; simpl; [tauto |].
  intros [H | [_ H]]; [lia | auto].
Qed.

Lemma comes_before_trans p : forall q r,
  comes_before p q -> comes_before q r -> comes_before p r.
Proof.
  induction p as [| i p IH]; intros [| j q] [| k r]; simpl; try tauto.
  intros [H1 | [-> H1]] [H2 | [-> H2]]; try (left; lia).
  right. split; [reflexivity |]. eapply IH; eauto.
Qed.

Lemma comes_before_app p q : q <> [] -> comes_before p (p ++ q).
Proof.
  intros Hq. induction p as [| i p IH]; simpl.
  - destruct q; [congruence | exact I].
  - right. auto.
Qed.

Lemma strip_app a : forall t r, strip a t = Some r -> t = a ++ r.
Proof.
  induction a as [| i a IH]; intros t r; simpl.
  - intros E. now injection E.
  - destruct t as [| j t]; [discriminate |].
    destruct (Nat.eqb_spec i j) as [-> | _]; [| discriminate].
    intros E. now rewrite (IH t r E).
Qed.

Lemma sorted_app {A} (R : A -> A -> Prop) l1 l2 :
  StronglySorted R l1 -> StronglySorted R l2 ->
  (forall x y, In x l1 -> In y l2 -> R x y) ->
  StronglySorted R (l1 ++ l2).
Proof.
  intros S1 S2 H. induction S1 as [| a l1 S1 IH F]; simpl; [exact S2 |].
  constructor.
  - apply IH. intros x y Hx. apply H. now right.
  - apply Forall_app. split; [exact F |].
    apply Forall_forall. intros y Hy. apply H; [now left | exact Hy].
Qed.

Lemma sorted_map_cons k l :
  StronglySorted comes_before l ->
  StronglySorted comes_before (map (cons k) l).
Proof.
  intros S. induction S as [| a l S IH F]; simpl; constructor; [exact IH |].
  rewrite Forall_map. eapply Forall_impl; [| exact F].
  intros b Hb. simpl. right. auto.
Qed.

Lemma elements_from_sorted k cs :
  Forall (fun c => StronglySorted comes_before (elements c)) cs ->
  StronglySorted comes_before (elements_from k cs).
Proof.
  intros H. revert k. induction H as [| c r Hc _ IH]; intros k; simpl.
  - constructor.
  - apply sorted_app; [now apply sorted_map_cons | apply IH |].
    intros x y Hx Hy. apply in_map_iff in Hx as (p & <- & _).
    destruct y as [| j q]; [now apply nil_not_in_elements_from in Hy |].
    apply in_elements_from in Hy as (_ & Hj & _). simpl. left. lia.
Qed.

(** The listing of a tree is in document order. *)
Lemma elements_sorted n : StronglySorted comes_before (elements n).
Proof.
  induction n as [s | nm attrs cs IH] using node_induction.
  - simpl. constructor; constructor.
  - rewrite elements_tag. constructor; [now apply elements_from_sorted |].
    apply Forall_forall. intros [| j q] Hq; [| exact I].
    now apply nil_not_in_elements_from in Hq.
Qed.

Lemma after_sorted {R : path -> path -> Prop} p q l :
  StronglySorted R l -> In q (after p l) -> R p q.
Proof.
  intros S. induction S as [| a l S IH F]; simpl; [tauto |].
  destruct (path_eqb a p) eqn:E; [| exact IH].
  apply path_eqb_eq in E. subst. rewrite Forall_forall in F. apply F.
Qed.

Lemma find_next_comes_before root f p q :
  find_next root f p = Some q -> comes_before p q.
Proof.
  unfold find_next, next_elements. intros H. apply find_some in H as [H _].
  eapply after_sorted; [apply elements_sorted | exact H].
Qed.

Lemma descendants_come_after root p x :
  In x (descendants root p) -> comes_before p x.
Proof.
  intros H. apply in_descendants in H as (q & -> & Hq & _).
  now apply comes_before_app.
Qed.

(** *** References that the rewrite leaves in place *)

Lemma relocate_keeps tag link base :
  behind tag link -> relocate (link, base) tag = tag.
Proof.
  intros Hb. unfold relocate.
  destruct (Nat.eqb_spec (fst tag) (fst link)) as [E | E]; [| reflexivity].
  destruct (strip (snd link) (snd tag)) as [[| i q] |] eqn:Es; try reflexivity.
  apply strip_app in Es. destruct Hb as [Hb | Hb]; [congruence |].
  exfalso. apply (comes_before_irrefl (snd tag)).
  eapply comes_before_trans; [exact Hb |].
  replace (snd tag) with (snd link ++ i :: q) by (symmetry; exact Es).
  now apply comes_before_app.
Qed.

Lemma relocate_behind tag link base x :
  fst tag < base -> behind tag x -> behind tag (relocate (link, base) x).
Proof.
  intros Hlt Hb. unfold relocate.
  destruct (Nat.eqb (fst x) (fst link)); [| exact Hb].
  destruct (strip (snd link) (snd x)) as [[| i q] |]; try exact Hb.
  left. simpl. lia.
Qed.

Lemma relocate_all_app m1 m2 x :
  relocate_all (m1 ++ m2) x = relocate_all m2 (relocate_all m1 x).
Proof. unfold relocate_all. apply fold_left_app. Qed.

Lemma grows_refl h : grows h h.
Proof. split; auto. Qed.

Lemma grows_trans h1 h2 h3 : grows h1 h2 -> grows h2 h3 -> grows h1 h3.
Proof.
  intros [L1 R1] [L2 R2]. split; [lia |]. intros x Hx.
  specialize (R1 x Hx). specialize (R2 x ltac:(lia)). lia.
Qed.

Lemma nth_replace_nth_other {A} (l : list A) i j x d :
  i <> j -> nth j (replace_nth i x l) d = nth j l d.
Proof.
  revert i j. induction l as [| a l IH]; intros [| i] [| j] H; simpl; auto.
  congruence.
Qed.

Lemma rewritten_grows h link old s :
  h_string link h = Some old -> grows h (rewritten h link s).
Proof.
  intros Hs. unfold rewritten.
  destruct (deref h link) as [[s0 | nm attrs cs] |] eqn:Ed;
    try apply grows_refl.
  assert (exists c, cs = [c]) as (c & ->).
  { unfold h_string, string_at in Hs. unfold deref in Ed. rewrite Ed in Hs.
    simpl in Hs. destruct cs as [| c [| c' r]]; try discriminate.
    now exists c. }
  split.
  - rewrite length_app, length_replace_nth. lia.
  - intros x Hx. unfold remaining, root_of.
    rewrite app_nth1 by (now rewrite length_replace_nth).
    destruct (Nat.eq_dec (fst link) (fst x)) as [E | E].
    + rewrite <- E.
      destruct (nth_error h (fst link)) as [r |] eqn:Er.
      * rewrite (nth_error_nth (replace_nth (fst link) _ h) (fst link) _
                   (nth_error_replace_nth h (fst link) r _ Er)).
        apply next_elements_set_string with (c := c). exact Ed.
      * apply nth_error_None in Er. lia.
    + rewrite nth_replace_nth_other by exact E. lia.
Qed.

Section Pipeline.
Variable web : string -> option node.

Lemma town_body_grows item towns h r h' t :
  town_body web item towns h = (r, h', t) -> grows h h'.
Proof.
  intros E. apply town_body_frame in E
    as [-> | (link & old & city & _ & _ & _ & _ & Hs & ->)].
  - apply grows_refl.
  - eapply rewritten_grows; eauto.
Qed.

Lemma town_loop_grows town_list : forall moves towns h r h' t,
  town_loop web town_list moves towns h = (r, h', t) -> grows h h'.
Proof.
  induction town_list as [| item rest IH]; intros moves towns h r h' t;
    cbn [town_loop].
  - intros E. injection E as _ <- _. apply grows_refl.
  - unfold bind.
    destruct (town_body web (relocate_all moves item) towns h)
      as [[[out | e] h1] t1] eqn:Eb.
    + destruct (town_loop web rest (moves ++ snd out) (fst out) h1)
        as [[r2 h2] t2] eqn:El.
      intros E. injection E as _ <- _.
      eapply grows_trans; [eapply town_body_grows | eapply IH]; eauto.
    + intros E. injection E as _ <- _. eapply town_body_grows; eauto.
Qed.

Lemma get_towns_from_state_grows tag h r h' t :
  get_towns_from_state web tag h = (r, h', t) -> grows h h'.
Proof.
  unfold get_towns_from_state.
  cbv beta iota delta [bind read need ret raise].
  destruct (h_find_next (named "ul") tag h) as [ul |].
  - destruct (town_loop web (h_find_all (named "li") ul h) [] [] h)
      as [[r2 h2] t2] eqn:El.
    intros E. injection E as _ <- _. eapply town_loop_grows; eauto.
  - intros E. injection E as _ <- _. apply grows_refl.
Qed.

(** The relocation a round hands back is the one of its rewrite. *)
Lemma rename_neighborhood_moved item h moved h' t :
  rename_neighborhood item h = (Return moved, h', t) ->
  moved = [] \/
  exists link, moved = [(link, List.length h)] /\
               h_find_next (named "a") item h = Some link.
Proof.
  unfold rename_neighborhood. unfold bind at 1.
  rewrite is_neighborhood_pure.
  destruct (value (is_neighborhood item h)) as [[|] | e];
    try discriminate; try (intros E; injection E as <-; now left).
  unfold bind at 1. rewrite enclosing_city_pure.
  destruct (value (enclosing_city item h)) as [city | e]; try discriminate.
  destruct (mem city big_cities);
    try (intros E; injection E as <-; now left).
  unfold set_string. run.
  destruct (h_find_next (named "a") item h) as [link |]; simpl;
    try discriminate.
  destruct (h_string link h) as [old |]; simpl; try discriminate.
  destruct (deref h link) as [[s | nm attrs cs] |]; simpl; try discriminate.
  intros E. injection E as <-. right. now exists link.
Qed.

Lemma town_body_moved item towns h out h' t :
  town_body web item towns h = (Return out, h', t) ->
  snd out = [] \/
  exists link, snd out = [(link, List.length h)] /\
               h_find_next (named "a") item h = Some link.
Proof.
  rewrite town_body_unfold.
  destruct (h_find_all (named "ul") item h).
  - destruct (rename_neighborhood item h) as [[[moved | e] h1] t1] eqn:Er;
      [| discriminate].
    intros E. assert (snd out = moved) as ->.
    { cbv zeta in E. destruct (sources_are_good _); [now injection E as <- |].
      destruct (check_college_town_status web item h1) as [[[[|] | e] h2] t2];
        try discriminate; now injection E as <-. }
    eapply rename_neighborhood_moved; eauto.
  - intros E. injection E as <-. now left.
Qed.

Lemma town_loop_keeps tag town_list : forall moves towns h out h' t,
  fst tag < List.length h ->
  Forall (fun x => behind tag (relocate_all moves x)) town_list ->
  relocate_all moves tag = tag ->
  town_loop web town_list moves towns h = (Return out, h', t) ->
  relocate_all (snd out) tag = tag.
Proof.
  induction town_list as [| item rest IH];
    intros moves towns h out h' t Hlive Hall Htag; cbn [town_loop].
  - intros E. injection E as <-. exact Htag.
  - unfold bind.
    destruct (town_body web (relocate_all moves item) towns h)
      as [[[o1 | e] h1] t1] eqn:Eb; [| discriminate].
    destruct (town_loop web rest (moves ++ snd o1) (fst o1) h1)
      as [[r2 h2] t2] eqn:El.
    intros E. injection E as -> _ _.
    inversion Hall as [| ? ? Hitem Hrest]; subst.
    pose proof (town_body_grows _ _ _ _ _ _ Eb) as [Hlen _].
    apply town_body_moved in Eb as [Em | (link & Em & Hl)]; rewrite Em in *.
    + rewrite app_nil_r in El.
      apply (IH moves (fst o1) h1 out h2 t2); auto. lia.
    + assert (behind tag link) as Hlink.
      { unfold h_find_next in Hl.
        destruct (find_next _ _ _) as [q |] eqn:Eq; [| discriminate].
        injection Hl as <-. apply find_next_comes_before in Eq.
        destruct Hitem as [Hi | Hi]; [now left | right]. simpl.
        eapply comes_before_trans; eauto. }
      apply (IH (moves ++ [(link, List.length h)]) (fst o1) h1 out h2 t2);
        [| | | exact El].
      * lia.
      * eapply Forall_impl; [| exact Hrest]. intros x Hx.
        rewrite relocate_all_app. simpl. now apply relocate_behind.
      * rewrite relocate_all_app, Htag. simpl. now apply relocate_keeps.
Qed.

(** The heading of the state is not touched by the rewrites below it. *)
Lemma get_towns_from_state_keeps tag h out h' t :
  fst tag < List.length h ->
  get_towns_from_state web tag h = (Return out, h', t) ->
  relocate_all (snd out) tag = tag.
Proof.
  intros Hlive. unfold get_towns_from_state.
  cbv beta iota delta [bind read need ret raise].
  destruct (h_find_next (named "ul") tag h) as [ul |] eqn:Eu; [| discriminate].
  destruct (town_loop web (h_find_all (named "li") ul h) [] [] h)
    as [[r2 h2] t2] eqn:El.
  intros E. injection E as -> _ _.
  apply (town_loop_keeps tag (h_find_all (named "li") ul h) [] [] h out h2 t2);
    [exact Hlive | | reflexivity | exact El].
  apply Forall_forall. intros x Hx. simpl. right.
  unfold h_find_next in Eu.
  destruct (find_next _ _ _) as [q |] eqn:Eq; [| discriminate].
  injection Eu as <-. apply find_next_comes_before in Eq.
  unfold h_find_all, find_all in Hx. apply in_map_iff in Hx as (p & <- & Hp).
  apply filter_In in Hp as [Hp _]. apply descendants_come_after in Hp.
  simpl in *. eapply comes_before_trans; eauto.
Qed.

Lemma in_anchor_section_pure tag h :
  in_anchor_section tag h = (value (in_anchor_section tag h), h, []).
Proof. unfold in_anchor_section. run. cases; reflexivity. Qed.

Lemma h_find_next_later f tag h next :
  h_find_next f tag h = Some next ->
  fst next = fst tag /\ remaining h next < remaining h tag.
Proof.
  unfold h_find_next, remaining.
  destruct (find_next (root_of h tag) f (snd tag)) as [q |] eqn:E;
    [| discriminate].
  intros H. injection H as <-. split; [reflexivity |].
  apply find_next_later in E. exact E.
Qed.

(** With more rounds than elements behind the heading, the loop does
    not run out of rounds. *)
Lemma scrape_loop_total rounds : forall tag data h,
  fst tag < List.length h ->
  remaining h tag < rounds ->
  value (scrape_loop web rounds tag data h) <> Return None.
Proof.
  induction rounds as [| rounds IH]; intros tag data h Hlive Hrem; [lia |].
  cbn [scrape_loop]. unfold bind at 1. rewrite in_anchor_section_pure.
  destruct (value (in_anchor_section tag h)) as [[|] | e];
    try (unfold value; simpl; discriminate).
  cbv beta iota delta [bind read emit need ret raise].
  destruct (get_towns_from_state web tag h) as [[[out | e] h1] t1] eqn:Eg;
    [| unfold value; simpl; discriminate].
  rewrite (get_towns_from_state_keeps tag h out h1 t1 Hlive Eg).
  apply get_towns_from_state_grows in Eg as [Hlen Hle].
  destruct (h_find_next (named "h3") tag h1) as [next |] eqn:En;
    [| unfold value; simpl; discriminate].
  apply h_find_next_later in En as [Hfst Hlt].
  specialize (Hle tag Hlive).
  specialize (IH next
                ((data ++ [(h_text tag h ++ newline)%string]) ++ fst out)
                h1 ltac:(lia) ltac:(lia)).
  destruct (scrape_loop web rounds next _ h1) as [[r2 h2] t2].
  unfold value in *. simpl in *. exact IH.
Qed.

Lemma scrape_document_total doc h :
  value (scrape_document web (List.length (elements doc)) doc h)
  <> Return None.
Proof.
  unfold scrape_document, parse.
  cbv beta iota delta [bind read need ret raise].
  destruct (h_find _ (0, []) [doc]) as [span |] eqn:Es;
    [| unfold value; simpl; discriminate].
  destruct (h_find_next (named "h3") span [doc]) as [tag |] eqn:Et;
    [| unfold value; simpl; discriminate].
  apply h_find_next_later in Et as [Hfst Hlt].
  assert (fst span = 0) as Hspan.
  { unfold h_find in Es. destruct (find _ _ _); [| discriminate].
    now injection Es as <-. }
  assert (remaining [doc] span <= List.length (elements doc)) as Hle.
  { unfold remaining, root_of, next_elements. rewrite Hspan. simpl.
    apply after_length. }
  pose proof (scrape_loop_total (List.length (elements doc)) tag [] [doc])
    as H.
  destruct (scrape_loop web _ tag [] [doc]) as [[r2 h2] t2].
  unfold value in *. simpl in *. apply H; [lia | lia].
Qed.

(** An exception in the extractor ends the loop over the states. *)
Lemma scrape_loop_raises rounds tag data h e h1 t :
  value (in_anchor_section tag h) = Return true ->
  get_towns_from_state web tag h = (Raise e, h1, t) ->
  value (scrape_loop web (S rounds) tag data h) = Raise e.
Proof.
  intros Ha Hg. cbn [scrape_loop]. unfold bind at 1.
  rewrite in_anchor_section_pure, Ha.
  cbv beta iota delta [bind read emit need ret raise]. rewrite Hg.
  reflexivity.
Qed.

(** The run always ends: with its results or with an exception. *)
Lemma scrape_university_towns_total h :
  value (scrape_university_towns web h) <> Return None.
Proof.
  unfold scrape_university_towns, requests_get.
  cbv beta iota delta [bind emit need ret raise].
  destruct (web url) as [doc |]; [| unfold value; simpl; discriminate].
  pose proof (scrape_document_total doc h) as H.
  destruct (scrape_document web _ doc h) as [[r2 h2] t2].
  unfold value in *. simpl in *. exact H.
Qed.

(** A run parses the article anew: what it returns and what it does to
    the outside do not depend on the trees an earlier run left. *)
Lemma scrape_university_towns_fresh h1 h2 :
  value (scrape_university_towns web h1) =
  value (scrape_university_towns web h2) /\
  events (scrape_university_towns web h1) =
  events (scrape_university_towns web h2).
Proof.
  unfold scrape_university_towns, requests_get, scrape_document, parse.
  cbv beta iota delta [bind emit need ret raise read].
  destruct (web url) as [doc |]; [| split; reflexivity].
  destruct (h_find _ (0, []) [doc]) as [span |]; [| split; reflexivity].
  destruct (h_find_next (named "h3") span [doc]) as [tag |];
    [| split; reflexivity].
  destruct (scrape_loop web _ tag [] [doc]) as [[r h'] t].
  split; reflexivity.
Qed.

(** *** Runs over one tree *)

Lemma reaches_line_141_spec item h :
  reaches_line_141 item h = true <->
  h_find_all (named "ul") item h = [] /\
  passes_line_137 item h /\
  exists city, line_139_reads item h city /\ In city big_cities.
Proof.
  unfold reaches_line_141. rewrite <- is_neighborhood_spec.
  destruct (h_find_all (named "ul") item h) as [| u us].
  - destruct (value (is_neighborhood item h)) as [[|] | e].
    + destruct (value (enclosing_city item h)) as [city | e] eqn:Ec.
      * rewrite mem_In. split.
        -- intros Hb. split; [reflexivity |]. split; [reflexivity |].
           exists city. split; [now apply enclosing_city_spec | exact Hb].
        -- intros (_ & _ & c & Hc & Hb). apply enclosing_city_spec in Hc.
           congruence.
      * split; [discriminate |].
        intros (_ & _ & c & Hc & _). apply enclosing_city_spec in Hc.
        congruence.
    + split; [discriminate |]. intros (_ & E & _). discriminate.
    + split; [discriminate |]. intros (_ & E & _). discriminate.
  - split; [discriminate |]. intros (E & _). discriminate.
Qed.

(** A round that does not get as far as line 141 leaves the heap as it
    is and moves nothing. *)
Lemma rename_neighborhood_quiet item h :
  h_find_all (named "ul") item h = [] ->
  reaches_line_141 item h = false ->
  exists v, rename_neighborhood item h = (v, h, []) /\
            forall moved, v = Return moved -> moved = [].
Proof.
  unfold reaches_line_141. intros -> Hq.
  unfold rename_neighborhood. unfold bind at 1.
  rewrite is_neighborhood_pure.
  destruct (value (is_neighborhood item h)) as [[|] | e].
  - unfold bind at 1. rewrite enclosing_city_pure.
    destruct (value (enclosing_city item h)) as [city | e].
    + rewrite Hq. eexists. split; [reflexivity |]. intros m E. now injection E.
    + eexists. split; [reflexivity |]. discriminate.
  - eexists. split; [reflexivity |]. intros m E. now injection E.
  - eexists. split; [reflexivity |]. discriminate.
Qed.

Lemma town_body_quiet item towns h r h' t :
  reaches_line_141 item h = false ->
  town_body web item towns h = (r, h', t) ->
  h' = h /\ forall out, r = Return out -> snd out = [].
Proof.
  intros Hq E. rewrite town_body_unfold in E.
  destruct (h_find_all (named "ul") item h) as [| u us] eqn:Hul.
  - destruct (rename_neighborhood_quiet item h Hul Hq) as (v & Ev & Hv).
    rewrite Ev in E. destruct v as [moved | e].
    + specialize (Hv moved eq_refl). subst moved. cbv zeta in E.
      destruct (sources_are_good _).
      * injection E as <- <- _. split; [reflexivity |].
        intros out Eo. now injection Eo as <-.
      * destruct (check_college_town_status web item h)
          as [[[[|] | e] h2] t2]; injection E as <- <- _;
          (split; [reflexivity |]); intros out Eo;
          try discriminate; now injection Eo as <-.
    + injection E as <- <- _. split; [reflexivity | discriminate].
  - injection E as <- <- _. split; [reflexivity |].
    intros out Eo. now injection Eo as <-.
Qed.

Lemma town_loop_quiet town_list : forall towns h r h' t,
  (forall item, In item town_list -> reaches_line_141 item h = false) ->
  town_loop web town_list [] towns h = (r, h', t) ->
  h' = h /\ forall out, r = Return out -> snd out = [].
Proof.
  induction town_list as [| item rest IH]; intros towns h r h' t Hq E.
  - injection E as <- <- _. split; [reflexivity |].
    intros out Eo. now injection Eo as <-.
  - cbn [town_loop] in E. unfold bind in E. cbn [relocate_all fold_left] in E.
    destruct (town_body web item towns h) as [[r1 h1] t1] eqn:Eb.
    apply town_body_quiet in Eb as [-> Hm]; [| apply Hq; now left].
    destruct r1 as [out | e].
    + rewrite (Hm out eq_refl) in E. cbn [app] in E.
      destruct (town_loop web rest [] (fst out) h) as [[r2 h2] t2] eqn:El.
      apply IH in El as [-> Hm2]; [| intros i Hi; apply Hq; now right].
      injection E as <- <- _. auto.
    + injection E as <- <- _. split; [reflexivity | discriminate].
Qed.

Lemma find_all_in_root root f p x :
  In x (find_all root f p) -> In x (find_all root f []).
Proof.
  unfold find_all. rewrite !filter_In. intros [Hin Ht]. split; [| exact Ht].
  apply in_descendants in Hin as (q & -> & Hq & Hv & _).
  apply in_descendants. exists (p ++ q). split; [reflexivity |].
  split; [| split; [exact Hv | destruct root; discriminate]].
  intros E. apply app_eq_nil in E as [_ E]. contradiction.
Qed.

Lemma get_towns_from_state_quiet tag h r h' t :
  (forall item, In item (h_find_all (named "li") (fst tag, []) h) ->
                reaches_line_141 item h = false) ->
  get_towns_from_state web tag h = (r, h', t) ->
  h' = h /\ forall out, r = Return out -> snd out = [].
Proof.
  intros Hq. unfold get_towns_from_state.
  cbv beta iota delta [bind read need ret raise].
  destruct (h_find_next (named "ul") tag h) as [ul |] eqn:Eu.
  - destruct (town_loop web (h_find_all (named "li") ul h) [] [] h)
      as [[r2 h2] t2] eqn:El.
    intros E. injection E as <- <- _.
    apply town_loop_quiet in El; [exact El |].
    intros item Hi. apply Hq.
    apply h_find_next_tag in Eu as [Hfst _].
    unfold h_find_all, in_tree, root_of in *. rewrite Hfst in Hi.
    cbn [fst snd].
    apply in_map_iff in Hi as (x & <- & Hx). apply in_map_iff.
    exists x. split; [reflexivity |]. now apply find_all_in_root in Hx.
  - intros E. injection E as <- <- _. split; [reflexivity | discriminate].
Qed.

Lemma scrape_loop_quiet rounds : forall tag data h r h' t,
  (forall item, In item (h_find_all (named "li") (fst tag, []) h) ->
                reaches_line_141 item h = false) ->
  scrape_loop web rounds tag data h = (r, h', t) ->
  h' = h.
Proof.
  induction rounds as [| rounds IH]; intros tag data h r h' t Hq;
    cbn [scrape_loop]; [intros E; now injection E |].
  unfold bind at 1. rewrite in_anchor_section_pure.
  destruct (value (in_anchor_section tag h)) as [[|] | e];
    try (intros E; now injection E).
  cbv beta iota delta [bind read emit need ret raise].
  destruct (get_towns_from_state web tag h) as [[[out | e] h1] t1] eqn:Eg;
    apply get_towns_from_state_quiet in Eg as [-> Hm]; try exact Hq;
    [| intros E; now injection E].
  rewrite (Hm out eq_refl). cbn [relocate_all fold_left].
  destruct (h_find_next (named "h3") tag h) as [next |] eqn:En;
    [| intros E; now injection E].
  apply h_find_next_tag in En as [Hfst _].
  destruct (scrape_loop web rounds next _ h) as [[r2 h2] t2] eqn:Es.
  intros E. injection E as _ <- _.
  apply IH in Es; [exact Es |]. now rewrite Hfst.
Qed.

Lemma run_on_tree_quiet rounds soup h r h' t :
  (forall item, In item (h_find_all (named "li") (fst soup, []) h) ->
                reaches_line_141 item h = false) ->
  run_on_tree web rounds soup h = (r, h', t) ->
  h' = h.
Proof.
  intros Hq. unfold run_on_tree.
  cbv beta iota delta [bind read need ret raise].
  destruct (h_find _ soup h) as [span |] eqn:Es;
    [| intros E; now injection E].
  destruct (h_find_next (named "h3") span h) as [tag |] eqn:Et;
    [| intros E; now injection E].
  apply h_find_next_tag in Et as [Hfst _].
  assert (fst span = fst soup) as Hspan.
  { unfold h_find in Es. destruct (find _ _ _); [| discriminate].
    now injection Es as <-. }
  destruct (scrape_loop web rounds tag [] h) as [[r2 h2] t2] eqn:El.
  intros E. injection E as _ <- _.
  apply scrape_loop_quiet in El; [exact El |]. now rewrite Hfst, Hspan.
Qed.

(** [scrape_university_towns] runs lines 175-186 on the tree it has
    just parsed. *)
Lemma scrape_document_on_tree rounds doc h :
  scrape_document web rounds doc h =
  run_on_tree web rounds (0, []) [doc].
Proof.
  unfold scrape_document, parse. unfold bind at 1. unfold run_on_tree.
  destruct (bind _ _ [doc]) as [[r h'] t]. reflexivity.
Qed.

(** C4, as amended.  A call of [scrape_university_towns] ends, and two
    calls return the same stream, each parsing the article anew; what
    a call does behind the parse is the run over the parsed tree; and
    a run over a parsed tree in which no list item gets as far as line
    141 leaves the tree as it was, so that a second run over that tree
    returns the same stream and emits the same events. *)
Theorem repeatable_when_parsed_anew_or_left_alone :
  (forall h1 h2,
      value (scrape_university_towns web h1) <> Return None /\
      value (scrape_university_towns web h1) =
      value (scrape_university_towns web h2) /\
      events (scrape_university_towns web h1) =
      events (scrape_university_towns web h2)) /\
  (forall rounds doc h,
      scrape_document web rounds doc h =
      run_on_tree web rounds (0, []) [doc]) /\
  (forall rounds soup h r h' t,
      (forall item, In item (h_find_all (named "li") (fst soup, []) h) ->
                    reaches_line_141 item h = false) ->
      run_on_tree web rounds soup h = (r, h', t) ->
      h' = h /\ run_on_tree web rounds soup h' = (r, h', t)).
Proof.
  split.
  { intros h1 h2. split; [apply scrape_university_towns_total |].
    apply scrape_university_towns_fresh. }
  split; [apply scrape_document_on_tree |].
  intros rounds soup h r h' t Hq E.
  pose proof (run_on_tree_quiet rounds soup h r h' t Hq E) as ->. auto.
Qed.

End Pipeline.

End PipelineFacts.

(* ================================================================= *)
(** ** The sample documents, run                                      *)
(* ================================================================= *)

Module Instances.
Import Text Soup Scraper Spec Examples MoreExamples.
Import SoupFacts CheckerFacts ExtractorFacts PipelineFacts.

Lemma relevant_section_spec_witness :
  (relevant_section article_two_nodes [4] = Return (Some true) <->
   none_preceding article_two_nodes (named "h2") [4] \/
   exists h label,
     nearest_preceding article_two_nodes (named "h2") h [4] /\
     first_span_text article_two_nodes h = Some label /\
     str_in "economy" (lower label) = true) /\
  relevant_section article_two_nodes [1] = Return None /\
  truthy None = false.
Proof.
  split.
  - apply (proj1 (relevant_section_spec article_two_nodes [4])). reflexivity.
  - apply (proj2 (relevant_section_spec article_two_nodes [1])). reflexivity.
Defined.


Lemma slow_path_accepts_iff_witness :
  (forall p, In p [[0]; [4]] <->
             In p (descendants article_two_nodes []) /\
             test article_two_nodes is_tag p = true /\
             relevant_section article_two_nodes p = Return (Some true)) /\
  (value (check_college_town_status (serve (Some article_two_nodes))
            smalltown [list_article]) = Return true <->
   exists uni, In uni (universities_of smalltown [list_article]) /\
               2 <= mentions article_two_nodes uni [[0]; [4]]).
Proof.
  apply (slow_path_accepts_iff (serve (Some article_two_nodes)) smalltown
           [list_article] smalltown_link "/wiki/Smalltown"
           article_two_nodes [[0]; [4]]).
  - repeat split.
  - exists [5]. split; reflexivity.
  - reflexivity.
Defined.

Lemma category_link_accepts_witness :
  slow_path article_category ["some college"] = Raise AttributeError /\
  check_college_town_status (serve (Some article_category)) smalltown
    [list_article] =
  (Return true, [list_article],
   [Checked smalltown; Request (base_url ++ "/wiki/Smalltown")%string]) /\
  ~ In Scanned
      (events (check_college_town_status (serve (Some article_category))
                 smalltown [list_article])).
Proof.
  split; [reflexivity |].
  apply (category_link_accepts (serve (Some article_category)) smalltown
           [list_article] smalltown_link "/wiki/Smalltown" article_category).
  - repeat split.
  - exists [3]. split; [reflexivity | discriminate].
Defined.

Lemma one_count_per_node_witness :
  occurrences "some college" (lower (text_at article_one_node [0])) = 2 /\
  value (check_college_town_status (serve (Some article_one_node))
           smalltown [list_article]) = Return false.
Proof.
  split; [reflexivity |].
  apply (proj2 (one_count_per_node (serve (Some article_one_node)) smalltown
                  [list_article] smalltown_link "/wiki/Smalltown"
                  article_one_node [[0]]
                  ltac:(repeat split)
                  ltac:(exists [3]; split; reflexivity)
                  eq_refl)).
  intros uni _. exists [0]. intros p [<- | []] Hne. now elim Hne.
Defined.

Lemma trusted_citation_accepts_witness :
  town_body (serve None) davis [] [list_article] =
  (Return ([("Davis (UC Davis)[9]" ++ newline)%string], []),
   [list_article], []).
Proof.
  apply (trusted_citation_accepts (serve None) davis [] [list_article] []
           [list_article] [] "9").
  - reflexivity.
  - reflexivity.
  - simpl. auto.
  - reflexivity.
Defined.

Lemma nested_unordered_list_skipped_witness :
  town_body (serve None) los_angeles [] [list_article] =
  (Return ([], []), [list_article], []) /\
  town_loop (serve None) [los_angeles; westwood] [] [] [list_article] =
  town_loop (serve None) [westwood] [] [] [list_article] /\
  (forall ul child,
      In los_angeles (h_find_all (named "li") ul [list_article]) ->
      In child (h_find_all (named "li") los_angeles [list_article]) ->
      In child (h_find_all (named "li") ul [list_article])).
Proof.
  apply (nested_unordered_list_skipped (serve None) los_angeles [westwood] []
           [list_article]).
  discriminate.
Defined.

(** An entry with a nested ordered list is classified like any other. *)
Lemma nested_ordered_list_is_classified :
  contains_nested_list springfield [nested_ordered] /\
  town_body (serve None) springfield [] [nested_ordered] =
  (Return ([("Springfield (Some College)[7]Downtown" ++ newline)%string], []),
   [nested_ordered], []).
Proof.
  split; [right; discriminate | reflexivity].
Qed.



(** The tests of lines 137 and 139 are true of an entry that is not
    nested at all: the list of the state stands behind a paragraph, and
    the first link of the document names a big city. *)
Lemma top_level_entry_is_rewritten :
  h_parent (0, [4]) = Some (0, [] : path) /\
  value (is_neighborhood evanston [see_also_first]) = Return true /\
  value (enclosing_city evanston [see_also_first]) = Return "Chicago" /\
  h_text evanston_link
    (final_heap (town_body (serve None) evanston [] [see_also_first])) =
  "Evanston, Chicago".
Proof. repeat split. Qed.


Lemma fetch_failure_aborts_witness :
  check_college_town_status (serve None) smalltown [list_article] =
  (Raise ConnectionError, [list_article],
   [Checked smalltown; Request (base_url ++ "/wiki/Smalltown")%string]) /\
  town_body (serve None) smalltown [] [list_article] =
  (Raise ConnectionError, [list_article],
   [Checked smalltown; Request (base_url ++ "/wiki/Smalltown")%string]) /\
  town_loop (serve None) [smalltown; davis] [] [] [list_article] =
  (Raise ConnectionError, [list_article],
   [Checked smalltown; Request (base_url ++ "/wiki/Smalltown")%string]).
Proof.
  apply (fetch_failure_aborts (serve None) smalltown [] [davis] []
           [list_article] smalltown [] [list_article] [] smalltown_link
           "/wiki/Smalltown");
    reflexivity.
Defined.

(** A failed request for one candidate ends the whole run. *)
Lemma fetch_failure_is_fatal :
  serve None (base_url ++ "/wiki/Smalltown")%string = None /\
  value (check_college_town_status (serve None) smalltown [list_article]) =
  Raise ConnectionError /\
  value (check_college_town_status (serve None) smalltown [list_article]) <>
  Return false /\
  value (scrape_university_towns (serve None) []) = Raise ConnectionError /\
  In davis (h_find_all (named "li") (0, [4]) [list_article]).
Proof.
  split; [reflexivity |]. split; [reflexivity |].
  split; [discriminate |]. split; [reflexivity |].
  simpl. auto.
Qed.

(** A second run of the driver over the tree the first run has worked
    on appends the city once more. *)
Lemma second_run_over_the_same_tree_differs :
  value (scrape_university_towns (serve (Some article_two_nodes)) []) =
  value (run_on_tree (serve (Some article_two_nodes))
           (List.length (elements list_article)) (0, []) [list_article]) /\
  value (run_on_tree (serve (Some article_two_nodes))
           (List.length (elements list_article)) (0, []) [list_article]) =
  Return (Some sample_output) /\
  value (run_on_tree (serve (Some article_two_nodes))
           (List.length (elements list_article)) (0, [])
           (final_heap
              (run_on_tree (serve (Some article_two_nodes))
                 (List.length (elements list_article)) (0, [])
                 [list_article]))) =
  Return (Some [("California[edit]" ++ newline)%string;
                ("Westwood, Los Angeles, Los Angeles (UCLA)[7]" ++ newline)%string;
                ("Smalltown (Some College)" ++ newline)%string;
                ("Davis (UC Davis)[9]" ++ newline)%string]) /\
  value (run_on_tree (serve (Some article_two_nodes))
           (List.length (elements list_article)) (0, [])
           (final_heap
              (run_on_tree (serve (Some article_two_nodes))
                 (List.length (elements list_article)) (0, [])
                 [list_article]))) <>
  value (run_on_tree (serve (Some article_two_nodes))
           (List.length (elements list_article)) (0, []) [list_article]).
Proof.
  split; [reflexivity |]. split; [reflexivity |]. split; [reflexivity |].
  intros E. vm_compute in E. discriminate.
Qed.

Lemma repeatable_when_parsed_anew_or_left_alone_witness :
  [article_plain] = [article_plain] /\
  run_on_tree (serve None) 20 (0, []) [article_plain] =
  (Return (Some [("Ohio[edit]" ++ newline)%string;
                 ("Athens (Ohio University)[7]" ++ newline)%string]),
   [article_plain], [Print "Checking college towns in Ohio..."]).
Proof.
  apply (proj2 (proj2 (repeatable_when_parsed_anew_or_left_alone (serve None)))
           20 (0, []) [article_plain]).
  - intros item [<- | []]. reflexivity.
  - reflexivity.
Defined.

(** C7.  The heading before the paragraph is the economy heading and
    its text says so, but its first [span] is the empty anchor: the
    classifier returns [False] for the paragraph. *)
Lemma economy_heading_behind_an_anchor_span :
  is_paragraph_or_table article_economy_anchor [2] = true /\
  nearest_preceding article_economy_anchor (named "h2") [1] [2] /\
  heading_label article_economy_anchor [1] = "Economy & industry[edit]" /\
  str_in "economy" (lower (heading_label article_economy_anchor [1])) = true /\
  first_span_text article_economy_anchor [1] = Some "" /\
  relevant_section article_economy_anchor [2] = Return (Some false).
Proof.
  split; [reflexivity |]. split.
  - apply find_previous_some; [discriminate | reflexivity].
  - repeat split.
Qed.

(** C9.  Under a city that has no link and is not a big city, line 139
    reads the name of the neighborhood itself; it is a big city, and
    the record carries its name twice. *)
Lemma neighborhood_of_unlisted_city_is_renamed :
  h_text chicago_entry [unlinked_city] = "Chicago (UIC)[7]" /\
  h_parent chicago_entry = Some (0, [2; 0; 2]) /\
  h_parent (0, [2; 0; 2]) = Some (0, [2; 0]) /\
  h_name (0, [2; 0]) [unlinked_city] = Some "li" /\
  h_text (0, [2; 0; 0]) [unlinked_city] = "Smallville" /\
  mem "Smallville" big_cities = false /\
  value (enclosing_city chicago_entry [unlinked_city]) = Return "Chicago" /\
  value (get_towns_from_state (serve None) illinois [unlinked_city]) =
  Return ([("Chicago, Chicago (UIC)[7]" ++ newline)%string],
          [((0, [2; 0; 2; 0; 0]), 1)]).
Proof. repeat split. Qed.

(** A neighborhood without a link of its own keeps its name, and the
    link of the next entry gets the city. *)
Lemma linkless_neighborhood_renames_the_next_entry :
  value (get_towns_from_state (serve None) (0, [0]) [linkless_neighborhood]) =
  Return ([("Westwood (UCLA)[7]" ++ newline)%string;
           ("Davis, Los Angeles (UC Davis)[9]" ++ newline)%string],
          [((0, [2; 1; 0]), 1)]).
Proof. reflexivity. Qed.

(** The sample runs of the whole pipeline: the college named in two
    in-scope nodes, in one in-scope node, and the article in the
    category. *)
Lemma sample_run :
  value (scrape_university_towns (serve (Some article_two_nodes)) []) =
  Return (Some [("California[edit]" ++ newline)%string;
                ("Westwood, Los Angeles (UCLA)[7]" ++ newline)%string;
                ("Smalltown (Some College)" ++ newline)%string;
                ("Davis (UC Davis)[9]" ++ newline)%string]).
Proof. reflexivity. Qed.

Lemma sample_run_dropped :
  value (scrape_university_towns (serve (Some article_one_node)) []) =
  Return (Some [("California[edit]" ++ newline)%string;
                ("Westwood, Los Angeles (UCLA)[7]" ++ newline)%string;
                ("Davis (UC Davis)[9]" ++ newline)%string]).
Proof. reflexivity. Qed.

Lemma sample_run_category :
  value (scrape_university_towns (serve (Some article_category)) []) =
  Return (Some [("California[edit]" ++ newline)%string;
                ("Westwood, Los Angeles (UCLA)[7]" ++ newline)%string;
                ("Smalltown (Some College)" ++ newline)%string;
                ("Davis (UC Davis)[9]" ++ newline)%string]).
Proof. reflexivity. Qed.

(** The extractor run again on the tree it has rewritten appends the
    city once more: the pipeline is repeatable because it parses anew. *)
Lemma extractor_again_on_the_same_tree :
  let first :=
    get_towns_from_state (serve (Some article_two_nodes)) california
      [list_article] in
  let second :=
    get_towns_from_state (serve (Some article_two_nodes)) california
      (final_heap first) in
  option_map (@fst _ _)
    (match value second with Return r => Some r | Raise _ => None end) =
  Some [("Westwood, Los Angeles, Los Angeles (UCLA)[7]" ++ newline)%string;
        ("Smalltown (Some College)" ++ newline)%string;
        ("Davis (UC Davis)[9]" ++ newline)%string].
Proof. reflexivity. Qed.

End Instances.

(* ================================================================= *)
(** ** The table of towns read back from the file                     *)
(* ================================================================= *)

Module TableFacts.
Import Text Table TextFacts SoupFacts.

Lemma length_append (a b : string) :
  String.length (a ++ b) = String.length a + String.length b.
Proof. induction a as [| c a IH]; simpl; [reflexivity | now rewrite IH]. Qed.

Lemma substring_whole_prefix (a b : string) :
  substring 0 (String.length a) (a ++ b) = a.
Proof.
  induction a as [| c a IH]; simpl.
  - destruct b; reflexivity.
  - now rewrite IH.
Qed.

Lemma prefix_append (u b : string) : String.prefix u (u ++ b) = true.
Proof.
  induction u as [| c u IH]; simpl; [now destruct b |].
  destruct (ascii_dec c c); [exact IH | congruence].
Qed.

Lemma str_in_middle (u a b : string) : str_in u (a ++ u ++ b) = true.
Proof.
  induction a as [| c a IH]; simpl append.
  - destruct (u ++ b)%string eqn:E; cbn [str_in]; rewrite <- E;
      now rewrite prefix_append.
  - cbn [str_in]. rewrite IH. apply orb_true_r.
Qed.

Lemma no_char_append c (a b : string) :
  no_char c (a ++ b) = no_char c a && no_char c b.
Proof.
  induction a as [| d a IH]; simpl; [reflexivity |].
  now rewrite IH, andb_assoc.
Qed.

Lemma plain_append (a b : string) :
  plain a = true -> plain b = true -> plain (a ++ b) = true.
Proof.
  unfold plain. rewrite !no_char_append, !andb_true_iff. tauto.
Qed.

Lemma universal_newlines_id s : no_char cr s = true -> universal_newlines s = s.
Proof.
  induction s as [| c s IH]; simpl; [reflexivity |].
  intros H. apply andb_true_iff in H as [Hc Hs].
  apply negb_true_iff in Hc. rewrite Hc. now rewrite IH.
Qed.

(** A line that ends at its first line feed is read as one line. *)
Lemma readlines_line body rest :
  no_char lf body = true ->
  readlines (body ++ String lf rest) =
  (body ++ String lf EmptyString)%string :: readlines rest.
Proof.
  induction body as [| c b IH]; intros H.
  - reflexivity.
  - simpl in H. apply andb_true_iff in H as [Hc Hb].
    apply negb_true_iff in Hc. simpl. rewrite Hc, (IH Hb). reflexivity.
Qed.

Lemma no_char_writelines c data :
  Forall (fun x => no_char c x = true) data ->
  no_char c (writelines data) = true.
Proof.
  induction 1 as [| x r Hx _ IH]; simpl; [reflexivity |].
  now rewrite no_char_append, Hx, IH.
Qed.

Lemma readlines_writelines data :
  Forall (fun x => exists body, no_char lf body = true /\
                                x = (body ++ newline)%string) data ->
  readlines (writelines data) = data.
Proof.
  induction 1 as [| x r (body & Hb & ->) _ IH]; simpl; [reflexivity |].
  unfold newline. change (ascii_of_nat 10) with lf.
  rewrite append_assoc. simpl.
  now rewrite readlines_line, IH.
Qed.

Lemma open_lines_written data fs :
  Forall (fun x => exists body, plain body = true /\
                                x = (body ++ newline)%string) data ->
  open_lines (write_to_txt data fs) = Some data.
Proof.
  intros H. unfold open_lines, write_to_txt. rewrite String.eqb_refl. simpl.
  f_equal. rewrite universal_newlines_id.
  - apply readlines_writelines. eapply Forall_impl; [| exact H].
    intros x (body & Hp & ->). exists body. split; [| reflexivity].
    unfold plain in Hp. now apply andb_true_iff in Hp.
  - apply no_char_writelines. eapply Forall_impl; [| exact H].
    intros x (body & Hp & ->). unfold plain in Hp.
    apply andb_true_iff in Hp as [_ Hp]. rewrite no_char_append, Hp.
    reflexivity.
Qed.

(** *** The loop over the lines *)

Lemma towns_loop_acc unitowns : forall state data,
  towns_loop unitowns state data = data ++ towns_loop unitowns state [].
Proof.
  induction unitowns as [| item r IH]; intros state data; simpl.
  - now rewrite app_nil_r.
  - destruct (str_in "[edit]" item); [apply IH |].
    rewrite IH, (IH state [_]). now rewrite app_assoc.
Qed.

Lemma towns_loop_state item r state data :
  is_state_line item = true ->
  towns_loop (item :: r) state data = towns_loop r (drop_last 7 item) data.
Proof. unfold is_state_line. intros H. simpl. now rewrite H. Qed.

Lemma towns_loop_town item r state data :
  is_state_line item = false ->
  towns_loop (item :: r) state data =
  data ++ (state, region_of item) :: towns_loop r state [].
Proof.
  unfold is_state_line. intros H. simpl. rewrite H.
  rewrite towns_loop_acc, <- app_assoc. reflexivity.
Qed.

Lemma towns_loop_app l1 : forall l2 state data,
  towns_loop (l1 ++ l2) state data =
  towns_loop l2 (state_after l1 state) (towns_loop l1 state data).
Proof.
  induction l1 as [| item r IH]; intros l2 state data; simpl;
    [reflexivity |].
  unfold is_state_line. destruct (str_in "[edit]" item); apply IH.
Qed.

Lemma state_after_towns l state :
  Forall (fun x => is_state_line x = false) l -> state_after l state = state.
Proof.
  induction 1 as [| x r Hx _ IH]; simpl; [reflexivity |]. now rewrite Hx.
Qed.

Lemma towns_loop_regions unitowns state :
  map snd (towns_loop unitowns state []) =
  map region_of (filter (fun x => negb (is_state_line x)) unitowns) /\
  List.length (towns_loop unitowns state []) =
  List.length unitowns -
  List.length (filter is_state_line unitowns).
Proof.
  revert state. induction unitowns as [| item r IH]; intros state.
  - split; reflexivity.
  - destruct (is_state_line item) eqn:E.
    + rewrite (towns_loop_state _ _ _ _ E). cbn [filter]. rewrite E.
      cbn [negb List.length]. destruct (IH (drop_last 7 item)) as [H1 H2].
      split; [exact H1 |]. rewrite H2. reflexivity.
    + rewrite (towns_loop_town _ _ _ _ E). cbn [filter]. rewrite E.
      cbn [negb app map snd List.length].
      destruct (IH state) as [H1 H2]. split; [now rewrite H1 |].
      rewrite H2.
      pose proof (filter_length_le is_state_line r). lia.
Qed.

(** X17.  A town line gets as [State] the nearest line with "[edit]"
    before it, without its last seven characters; before the first such
    line it gets the state the loop starts with (the empty string). *)
Theorem town_belongs_to_nearest_state before s_line between t_line rest
    state :
  is_state_line s_line = true ->
  Forall (fun x => is_state_line x = false) between ->
  is_state_line t_line = false ->
  In (drop_last 7 s_line, region_of t_line)
     (towns_loop (before ++ s_line :: between ++ t_line :: rest) state []) /\
  In (state, region_of t_line)
     (towns_loop (between ++ t_line :: rest) state []).
Proof.
  intros Hs Hb Ht.
  assert (forall st data,
             In (st, region_of t_line)
                (towns_loop (between ++ t_line :: rest) st data)) as H.
  { intros st data. rewrite towns_loop_app, (state_after_towns _ _ Hb).
    rewrite (towns_loop_town _ _ _ _ Ht). apply in_app_iff. right. now left. }
  split; [| apply H].
  rewrite towns_loop_app. rewrite (towns_loop_state _ _ _ _ Hs). apply H.
Qed.

(** *** What the loop takes from a line *)

Lemma is_state_line_state_line label : is_state_line (state_line label) = true.
Proof. unfold is_state_line, state_line. apply str_in_middle. Qed.

Lemma drop_last_state_line label : drop_last 7 (state_line label) = label.
Proof.
  unfold drop_last, state_line. rewrite length_append. simpl String.length.
  replace (String.length label + 7 - 7) with (String.length label) by lia.
  apply substring_whole_prefix.
Qed.

Lemma open_parenthesis_here c t :
  String.prefix " (" (String c t) = true <->
  c = " "%char /\ exists t', t = String "(" t'.
Proof.
  rewrite prefix_cons. split.
  - intros [<- H]. split; [reflexivity |].
    destruct t as [| d t']; [discriminate |].
    apply prefix_cons in H as [<- _]. now exists t'.
  - intros [-> (t' & ->)]. split; [reflexivity |].
    apply prefix_cons. split; [reflexivity | apply prefix_nil].
Qed.

Lemma split_head_found t : forall r,
  str_in " (" t = false -> split_head " (" (t ++ " (" ++ r) = t.
Proof.
  induction t as [| c t IH]; intros r H.
  - destruct r; reflexivity.
  - cbn [str_in] in H. apply orb_false_iff in H as [Hp Hs].
    change ((String c t ++ " (" ++ r)%string)
      with (String c (t ++ " (" ++ r)%string).
    cbn [split_head].
    destruct (String.prefix " (" (String c (t ++ " (" ++ r))) eqn:E.
    + exfalso. apply open_parenthesis_here in E as [-> (t' & E)].
      destruct t as [| d t'']; [discriminate |].
      injection E as -> _.
      assert (String.prefix " (" (String " " (String "(" t'')) = true) as F.
      { apply open_parenthesis_here. split; [reflexivity |]. now exists t''. }
      congruence.
    + now rewrite (IH r Hs).
Qed.

Lemma lstrip_lf_plain s : no_char lf s = true -> lstrip_lf s = s.
Proof.
  destruct s as [| c r]; simpl; [reflexivity |].
  intros H. apply andb_true_iff in H as [Hc _].
  apply negb_true_iff in Hc. now rewrite Hc.
Qed.

Lemma rstrip_lf_plain s : no_char lf s = true -> rstrip_lf s = s.
Proof.
  induction s as [| c r IH]; simpl; [reflexivity |].
  intros H. apply andb_true_iff in H as [Hc Hr].
  apply negb_true_iff in Hc. rewrite (IH Hr), Hc. now destruct r.
Qed.

Lemma region_of_town_line town rest :
  plain town = true -> str_in " (" town = false ->
  region_of (town_line town rest) = town.
Proof.
  intros Hp Hs. unfold region_of, town_line, strip_lf.
  rewrite (split_head_found town _ Hs).
  unfold plain in Hp. apply andb_true_iff in Hp as [Hp _].
  now rewrite (lstrip_lf_plain _ Hp), (rstrip_lf_plain _ Hp).
Qed.

Lemma towns_loop_town_lines towns state :
  Forall well_formed_town towns ->
  towns_loop
    (map (fun t : string * string => town_line (fst t) (snd t)) towns)
    state [] =
  map (fun t : string * string => (state, fst t)) towns.
Proof.
  induction 1 as [| t r (Hp & _ & Hs & Hn) _ IH]; simpl map; [reflexivity |].
  rewrite (towns_loop_town _ _ _ _ Hn), IH.
  now rewrite (region_of_town_line _ _ Hp Hs).
Qed.

Lemma towns_loop_render blocks : forall state,
  Forall well_formed blocks ->
  towns_loop (render blocks) state [] = rows_of blocks.
Proof.
  induction blocks as [| b bs IH]; intros state H; [reflexivity |].
  inversion H as [| ? ? (Hl & Ht) Hbs]; subst.
  cbn [render rows_of flat_map]. rewrite <- app_comm_cons.
  rewrite (towns_loop_state _ _ _ _ (is_state_line_state_line (fst b))).
  rewrite drop_last_state_line, towns_loop_app.
  rewrite (towns_loop_town_lines _ _ Ht), towns_loop_acc.
  f_equal. apply IH. exact Hbs.
Qed.

Lemma render_lines blocks :
  Forall well_formed blocks ->
  Forall (fun x => exists body, plain body = true /\
                                x = (body ++ newline)%string)
    (render blocks).
Proof.
  induction 1 as [| b bs (Hl & Ht) _ IH]; cbn [render flat_map];
    [constructor |].
  rewrite <- app_comm_cons. constructor.
  - exists (fst b ++ "[edit]")%string. split.
    + now apply plain_append.
    + unfold state_line. now rewrite append_assoc.
  - apply Forall_app. split; [| exact IH].
    apply Forall_map. eapply Forall_impl; [| exact Ht].
    intros t (Hp & Hr & _ & _).
    exists (fst t ++ " (" ++ snd t)%string. split.
    + apply plain_append; [exact Hp |]. now apply (plain_append " (").
    + unfold town_line. now rewrite !append_assoc.
Qed.

(** X18.  From the file that [write_to_txt] writes for state lines
    [label[edit]] and town lines [town (rest],
    [get_list_of_university_towns] reads back the pairs of label and
    town, state by state. *)
Theorem table_of_written_blocks blocks fs :
  Forall well_formed blocks ->
  get_list_of_university_towns (write_to_txt (render blocks) fs) =
  Some (rows_of blocks).
Proof.
  intros H. unfold get_list_of_university_towns.
  rewrite (open_lines_written _ fs (render_lines _ H)). simpl.
  now rewrite towns_loop_render.
Qed.

(** *** The names never keep a parenthesis *)

Lemma prefix_app_l u : forall a b,
  String.prefix u a = true -> String.prefix u (a ++ b) = true.
Proof.
  induction u as [| c u IH]; intros a b; simpl.
  - intros _. now destruct (a ++ b)%string.
  - destruct a as [| d a]; [discriminate |]. simpl.
    destruct (ascii_dec c d); [apply IH | discriminate].
Qed.

Lemma str_in_app_l u a b : str_in u a = true -> str_in u (a ++ b) = true.
Proof.
  induction a as [| c a IH]; cbn [str_in].
  - rewrite orb_false_r. intros H.
    destruct u; [| discriminate]. now destruct b.
  - intros H. apply orb_true_iff in H as [H | H].
    + simpl append. cbn [str_in].
      change (String c (a ++ b)) with (String c a ++ b)%string.
      now rewrite (prefix_app_l _ _ b H).
    + simpl append. cbn [str_in]. rewrite (IH H). apply orb_true_r.
Qed.

Lemma rstrip_lf_prefix s : exists tail, s = (rstrip_lf s ++ tail)%string.
Proof.
  induction s as [| c r (tail & IH)]; [now exists EmptyString |].
  simpl. destruct (rstrip_lf r) as [| d r'] eqn:E.
  - destruct (Ascii.eqb c lf).
    + now exists (String c r).
    + exists r. reflexivity.
  - exists tail. simpl. simpl in IH. now rewrite <- IH.
Qed.

Lemma str_in_lstrip_lf u s :
  str_in u (lstrip_lf s) = true -> str_in u s = true.
Proof.
  induction s as [| c r IH]; [auto |]. simpl lstrip_lf.
  destruct (Ascii.eqb c lf); [| auto].
  intros H. cbn [str_in]. rewrite (IH H). apply orb_true_r.
Qed.

Lemma split_head_clean s : str_in " (" (split_head " (" s) = false.
Proof.
  induction s as [| c r IH]; [reflexivity |].
  cbn [split_head].
  destruct (String.prefix " (" (String c r)) eqn:E; [reflexivity |].
  cbn [str_in]. rewrite IH, orb_false_r.
  destruct (String.prefix " (" (String c (split_head " (" r))) eqn:F;
    [| reflexivity].
  exfalso. apply open_parenthesis_here in F as [-> (t' & F)].
  destruct r as [| d r']; [discriminate |].
  cbn [split_head] in F.
  destruct (String.prefix " (" (String d r')); [discriminate |].
  injection F as -> _.
  assert (String.prefix " (" (String " " (String "(" r')) = true) as G.
  { apply open_parenthesis_here. split; [reflexivity |]. now exists r'. }
  congruence.
Qed.

(** X19.  No [RegionName] of the table contains " (". *)
Theorem region_has_no_parenthesis unitowns state r :
  In r (towns_loop unitowns state []) -> str_in " (" (snd r) = false.
Proof.
  intros H. apply (in_map snd) in H.
  rewrite (proj1 (towns_loop_regions unitowns state)) in H.
  apply in_map_iff in H as (item & <- & _).
  unfold region_of, strip_lf.
  destruct (str_in " (" (rstrip_lf (lstrip_lf (split_head " (" item))))
    eqn:E; [| reflexivity].
  destruct (rstrip_lf_prefix (lstrip_lf (split_head " (" item))) as (tl & Ht).
  apply (str_in_app_l _ _ tl) in E. rewrite <- Ht in E.
  apply str_in_lstrip_lf in E. now rewrite split_head_clean in E.
Qed.

(** X15.  Lines without line ends inside, each ended by the line break,
    are read back from the file [write_to_txt] wrote exactly as they
    were written, and no other file is changed. *)
Lemma split_head_whole body :
  str_in " (" body = false ->
  split_head " (" (body ++ newline) = (body ++ newline)%string.
Proof.
  induction body as [| c b IH]; intros H; [reflexivity |].
  cbn [str_in] in H. apply orb_false_iff in H as [Hp Hs].
  change ((String c b ++ newline)%string) with (String c (b ++ newline)).
  cbn [split_head].
  destruct (String.prefix " (" (String c (b ++ newline))) eqn:E.
  - exfalso. apply open_parenthesis_here in E as [-> (t' & E)].
    destruct b as [| d b']; [discriminate |]. injection E as -> _.
    assert (String.prefix " (" (String " " (String "(" b')) = true) as F.
    { apply open_parenthesis_here. split; [reflexivity |]. now exists b'. }
    congruence.
  - now rewrite (IH Hs).
Qed.

Lemma rstrip_lf_line body :
  no_char lf body = true -> rstrip_lf (body ++ newline) = body.
Proof.
  induction body as [| c b IH]; intros H; [reflexivity |].
  simpl in H. apply andb_true_iff in H as [Hc Hb].
  apply negb_true_iff in Hc.
  change ((String c b ++ newline)%string) with (String c (b ++ newline)).
  cbn [rstrip_lf]. rewrite (IH Hb), Hc. now destruct b.
Qed.

(** X21.  For a town line without " (" the [RegionName] is the whole line
    without its line break: a citation marker stays in the name. *)
Theorem town_line_without_parenthesis body :
  plain body = true ->
  str_in " (" body = false ->
  region_of (body ++ newline) = body.
Proof.
  intros Hp Hs. unfold region_of, strip_lf. rewrite (split_head_whole _ Hs).
  unfold plain in Hp. apply andb_true_iff in Hp as [Hp _].
  destruct body as [| c b]; [reflexivity |].
  assert (lstrip_lf (String c b ++ newline) = (String c b ++ newline)%string)
    as ->.
  { simpl in Hp. apply andb_true_iff in Hp as [Hc _].
    apply negb_true_iff in Hc. simpl. now rewrite Hc. }
  now apply rstrip_lf_line.
Qed.

Theorem lines_survive_the_file data fs :
  Forall (fun x => exists body, plain body = true /\
                                x = (body ++ newline)%string) data ->
  open_lines (write_to_txt data fs) = Some data /\
  forall name, name <> university_towns_txt ->
               write_to_txt data fs name = fs name.
Proof.
  intros H. split; [now apply open_lines_written |].
  intros name Hn. unfold write_to_txt.
  destruct (String.eqb_spec name university_towns_txt); [contradiction |].
  reflexivity.
Qed.

(** X16.  The loop of lines 56-60 makes one row for every line without
    "[edit]", in the order of the lines: its [RegionName] is the part of
    the line before the first " (", without line feeds at its ends. *)
Theorem one_row_per_town_line unitowns state :
  map snd (towns_loop unitowns state []) =
  map region_of (filter (fun x => negb (is_state_line x)) unitowns) /\
  List.length (towns_loop unitowns state []) =
  List.length unitowns -
  List.length (filter is_state_line unitowns).
Proof. apply towns_loop_regions. Qed.

End TableFacts.

(* ================================================================= *)
(** ** More on the checker, the extractor and the driver              *)
(* ================================================================= *)

Module MoreFacts.
Import Text Soup Scraper Spec Shape TextFacts SoupFacts CheckerFacts
  ExtractorFacts PipelineFacts.

(** X1.  The regular expression of line 143 finds exactly the strings of
    one or two digits that stand between square brackets somewhere in
    the line. *)
Theorem citation_markers_found s m :
  In m (findall_sources s) <->
  is_marker m = true /\ str_in (bracketed m) s = true.
Proof. apply findall_sources_spec. Qed.

(** X2.  The test of line 145 is true if and only if the line contains a
    marker of the trusted list between square brackets. *)
Theorem trusted_citation_test line :
  sources_are_good (findall_sources line) = true <->
  exists m, In m good_sources /\ str_in (bracketed m) line = true.
Proof.
  rewrite sources_are_good_iff. split; intros (m & H1 & H2); exists m.
  - apply findall_sources_spec in H1 as [_ H1]. auto.
  - split; [| exact H1]. apply findall_sources_spec.
    split; [now apply good_sources_are_markers | exact H2].
Qed.

(** *** Lower case *)

Lemma lower_ascii_idem c : lower_ascii (lower_ascii c) = lower_ascii c.
Proof. destruct c as [[] [] [] [] [] [] [] []]; reflexivity. Qed.

Lemma lower_ascii_bracket c :
  Ascii.eqb "["%char (lower_ascii c) = Ascii.eqb "["%char c.
Proof. destruct c as [[] [] [] [] [] [] [] []]; reflexivity. Qed.

Lemma lower_idem s : lower (lower s) = lower s.
Proof.
  induction s as [| c r IH]; simpl; [reflexivity |].
  now rewrite lower_ascii_idem, IH.
Qed.

Lemma str_in_char c s :
  str_in (String c EmptyString) s =
  match s with
  | EmptyString => false
  | String d r => Ascii.eqb c d || str_in (String c EmptyString) r
  end.
Proof.
  destruct s as [| d r]; [reflexivity |]. cbn [str_in]. f_equal.
  destruct (Ascii.eqb_spec c d) as [-> | N].
  - apply prefix_cons. split; [reflexivity | apply prefix_nil].
  - destruct (String.prefix _ _) eqn:E; [| reflexivity].
    apply prefix_cons in E as [E _]. congruence.
Qed.

Lemma str_in_bracket_lower s : str_in "[" (lower s) = str_in "[" s.
Proof.
  induction s as [| c r IH]; [reflexivity |].
  simpl lower. rewrite !(str_in_char "[" (String _ _)).
  now rewrite lower_ascii_bracket, IH.
Qed.

(** X9.  Every university name the checker looks for is in lower case
    and has no opening bracket, and there is at most one name for each
    link of the entry behind the first. *)
Theorem university_names_are_clean tag h :
  (forall uni, In uni (universities_of tag h) ->
               lower uni = uni /\ str_in "[" uni = false) /\
  List.length (universities_of tag h) <=
  List.length (h_find_all (named "a") tag h) - 1.
Proof.
  unfold universities_of. split.
  - intros uni H. apply in_map_iff in H as (x & <- & Hx).
    apply filter_In in Hx as [_ Hx]. apply andb_true_iff in Hx as [_ Hx].
    apply negb_true_iff in Hx. split; [apply lower_idem |].
    now rewrite str_in_bracket_lower.
  - rewrite length_map.
    etransitivity; [apply filter_length_le |].
    destruct (h_find_all (named "a") tag h); simpl; lia.
Qed.

Lemma parent_snoc q i : parent (q ++ [i]) = Some q.
Proof.
  unfold parent. destruct (q ++ [i]) eqn:E.
  - now destruct q.
  - rewrite <- E. now rewrite removelast_last.
Qed.

Lemma previous_sibling_snoc q k :
  previous_sibling (q ++ [k]) =
  match k with
  | 0 => None
  | S j => Some (q ++ [j])
  end.
Proof.
  unfold previous_sibling. rewrite rev_app_distr. simpl.
  destruct k; [reflexivity |]. now rewrite rev_involutive.
Qed.

(** X10.  The test of line 137 looks at the element two siblings before
    the list of the entry: the entry counts as a neighborhood unless
    that element is an [h3]; when the list has fewer than two siblings
    before it the test raises [AttributeError]. *)
Theorem sibling_pattern_of_line_137 r q k i h :
  value (is_neighborhood (r, q ++ [k; i]) h) =
  match k with
  | S (S j) =>
      Return (match h_name (r, q ++ [j]) h with
              | Some n => negb (String.eqb n "h3")
              | None => true
              end)
  | _ => Raise AttributeError
  end.
Proof.
  unfold is_neighborhood, h_parent, h_previous_sibling, in_tree.
  cbn [fst snd].
  replace (q ++ [k; i]) with ((q ++ [k]) ++ [i])
    by (rewrite <- app_assoc; reflexivity).
  rewrite parent_snoc.
  cbv beta iota delta [bind need ret raise read value option_map fst snd].
  rewrite previous_sibling_snoc. destruct k as [| [| j]]; [reflexivity | |];
    cbv beta iota; rewrite previous_sibling_snoc; reflexivity.
Qed.

Section Web.
Variable web : string -> option node.

(** X3.  An entry without a trusted marker in its text is handed to the
    checker: the round appends the line when the checker returns [True],
    leaves the towns as they are when it returns [False], and raises
    what the checker raises; the events of the round are those of the
    checker. *)
Theorem untrusted_entry_follows_checker item towns h moved h1 t :
  h_find_all (named "ul") item h = [] ->
  rename_neighborhood item h = (Return moved, h1, t) ->
  (forall m, In m good_sources ->
             str_in (bracketed m) (h_text item h1) = false) ->
  value (town_body web item towns h) =
  match value (check_college_town_status web item h1) with
  | Return true =>
      Return (towns ++ [(h_text item h1 ++ newline)%string], moved)
  | Return false => Return (towns, moved)
  | Raise e => Raise e
  end /\
  events (town_body web item towns h) =
  events (check_college_town_status web item h1).
Proof.
  intros Hul Hr Hno. rewrite town_body_unfold, Hul, Hr. cbv zeta.
  assert (sources_are_good (findall_sources (h_text item h1)) = false) as ->.
  { destruct (sources_are_good _) eqn:E; [| reflexivity].
    apply sources_are_good_iff in E as (m & H1 & H2).
    apply findall_sources_spec in H1 as [_ H1].
    rewrite (Hno m H2) in H1. discriminate. }
  destruct (check_college_town_status web item h1) as [[[[|] | e] h2] t2];
    split; reflexivity.
Qed.

(** X4.  When no link follows the entry the checker raises [TypeError],
    and when the link has no [href] it raises [KeyError]; in both cases
    no request is made. *)
Theorem no_request_without_target tag h :
  (h_find_next (named "a") tag h = None ->
   check_college_town_status web tag h =
   (Raise TypeError, h, [Checked tag])) /\
  (forall link,
      h_find_next (named "a") tag h = Some link ->
      h_attr "href" link h = None ->
      check_college_town_status web tag h =
      (Raise KeyError, h, [Checked tag])).
Proof.
  split.
  - intros H.
    cbv beta iota zeta delta
      [check_college_town_status requests_get bind emit read need ret raise].
    now rewrite H.
  - intros link Hl Hh.
    cbv beta iota zeta delta
      [check_college_town_status requests_get bind emit read need ret raise].
    rewrite Hl. cbv beta iota. now rewrite Hh.
Qed.

(** X5.  When the fetched article has no [div] with the id [catlinks],
    the checker raises [AttributeError] after the request. *)
Theorem article_without_category_region tag h link href soup :
  fetches web tag h link href soup ->
  find soup (named_with "div" "id" "catlinks") [] = None ->
  check_college_town_status web tag h =
  (Raise AttributeError, h, [Checked tag; Request (base_url ++ href)]).
Proof.
  intros Hf Hc.
  rewrite check_fetched with (link := link) (href := href) (soup := soup)
    by exact Hf.
  now rewrite Hc.
Qed.

(** X6.  On the slow path, if some paragraph or table of the article
    comes after a level-2 heading that has no [span] below it, the
    checker raises [AttributeError], whatever the mentions are. *)
Theorem heading_without_span_raises tag h link href soup p heading :
  fetches web tag h link href soup ->
  reaches_slow_path soup ->
  In p (descendants soup []) ->
  is_paragraph_or_table soup p = true ->
  find_previous soup (named "h2") p = Some heading ->
  find soup (named "span") heading = None ->
  value (check_college_town_status web tag h) = Raise AttributeError.
Proof.
  intros Hf Hs Hp Hk Hh Hn.
  apply (slow_path_raises web tag h link href soup p Hf Hs Hp).
  - unfold is_paragraph_or_table, test in *.
    destruct (get soup p) as [[s | nm attrs cs] |]; try discriminate.
    reflexivity.
  - unfold relevant_section. unfold is_paragraph_or_table in Hk.
    now rewrite Hk, Hh, Hn.
Qed.

(** X7.  On the slow path an entry with at most one link of its own has
    no university names, and the checker returns [False]. *)
Theorem no_university_no_acceptance tag h link href soup paras :
  fetches web tag h link href soup ->
  reaches_slow_path soup ->
  find_all_relevant soup = Return paras ->
  List.length (h_find_all (named "a") tag h) <= 1 ->
  value (check_college_town_status web tag h) = Return false.
Proof.
  intros Hf (cl & Hc & Hn) Hp Hlen.
  rewrite check_fetched with (link := link) (href := href) (soup := soup)
    by exact Hf.
  rewrite Hc, Hn. unfold slow_path. rewrite Hp.
  assert (universities_of tag h = []) as ->; [| reflexivity].
  unfold universities_of.
  destruct (h_find_all (named "a") tag h) as [| x [| y r]]; try reflexivity.
  simpl in Hlen. lia.
Qed.

Lemma str_in_empty s : str_in "" s = true.
Proof. destruct s; reflexivity. Qed.

(** X8.  On the slow path a later link of the entry with empty text
    counts as a mention in every in-scope node: with two or more
    in-scope nodes the checker returns [True]. *)
Theorem empty_link_text_accepts tag h link href soup paras uni :
  fetches web tag h link href soup ->
  reaches_slow_path soup ->
  find_all_relevant soup = Return paras ->
  In uni (tl (h_find_all (named "a") tag h)) ->
  h_text uni h = EmptyString ->
  2 <= List.length paras ->
  value (check_college_town_status web tag h) = Return true.
Proof.
  intros Hf (cl & Hc & Hn) Hp Hin Ht Hlen.
  rewrite check_fetched with (link := link) (href := href) (soup := soup)
    by exact Hf.
  rewrite Hc, Hn. unfold slow_path, value. rewrite Hp. simpl. f_equal.
  apply scan_universities_true. exists EmptyString. split.
  - unfold universities_of. apply in_map_iff. exists uni.
    rewrite Ht. split; [reflexivity |]. apply filter_In.
    split; [exact Hin |]. now rewrite Ht.
  - unfold mentions. rewrite forallb_filter_id; [exact Hlen |].
    apply forallb_forall. intros x _. apply str_in_empty.
Qed.


(** *** Nested in-scope nodes *)

Lemma lower_append a b : lower (a ++ b) = (lower a ++ lower b)%string.
Proof. induction a as [| c a IH]; simpl; [reflexivity | now rewrite IH]. Qed.

Lemma str_in_app_r u a b : str_in u b = true -> str_in u (a ++ b) = true.
Proof.
  intros H. induction a as [| c a IH]; [exact H |].
  simpl append. now apply str_in_later.
Qed.

Lemma text_holds_the_text_below soup p q u :
  get soup (p ++ q) <> None ->
  str_in u (lower (text_at soup (p ++ q))) = true ->
  str_in u (lower (text_at soup p)) = true.
Proof.
  unfold text_at. rewrite get_app.
  destruct (get soup p) as [n |]; [| congruence].
  destruct (get n q) as [m |] eqn:Em; [| congruence].
  intros _ H.
  destruct (get_text_replace_at q n m Em) as (pre & post & -> & _).
  rewrite !lower_append. apply str_in_app_r.
  now apply TableFacts.str_in_app_l.
Qed.

Lemma two_in_filter {A} (f : A -> bool) l a b :
  NoDup l -> In a l -> In b l -> a <> b -> f a = true -> f b = true ->
  2 <= List.length (filter f l).
Proof.
  intros N Ha Hb Hab Fa Fb.
  apply (NoDup_incl_length (l := [a; b])).
  - constructor; [intros [E | []]; congruence |].
    constructor; [intros [] | constructor].
  - intros x [<- | [<- | []]]; apply filter_In; auto.
Qed.

(** X20.  On ASCII text, a node that the classifier marks and that lies
    inside another marked node is counted twice: one mention in a
    paragraph inside an in-scope table is enough for the checker to
    return [True]. *)
Theorem nested_in_scope_nodes_count_twice tag h link href soup paras outer q
    uni :
  fetches web tag h link href soup ->
  reaches_slow_path soup ->
  find_all_relevant soup = Return paras ->
  In outer paras ->
  In (outer ++ q) paras ->
  q <> [] ->
  ascii_only (text_at soup outer) = true ->
  In uni (universities_of tag h) ->
  str_in uni (lower (text_at soup (outer ++ q))) = true ->
  value (check_college_town_status web tag h) = Return true.
Proof.
  intros Hf (cl & Hc & Hn) Hp Ho Hi Hq _ Hu Hm.
  rewrite check_fetched with (link := link) (href := href) (soup := soup)
    by exact Hf.
  rewrite Hc, Hn. unfold slow_path, value. rewrite Hp. simpl. f_equal.
  apply scan_universities_true. exists uni. split; [exact Hu |].
  unfold mentions.
  apply (two_in_filter _ paras outer (outer ++ q)); auto.
  - apply select_relevant_filter in Hp. subst paras.
    apply NoDup_filter, NoDup_descendants.
  - intros E. apply Hq. apply (app_inv_head outer). now rewrite app_nil_r.
  - apply (text_holds_the_text_below soup outer q); [| exact Hm].
    apply (in_scope_nodes soup paras Hp) in Hi as (_ & Ht & _).
    now apply test_some in Ht.
Qed.

(** X22.  For a neighborhood of a big city whose link does not hold a
    single child (markup and text, or nothing), line 141 raises
    [TypeError]; nothing is requested and the tree stays as it is. *)
Theorem link_with_markup_raises item towns h city link nm attrs cs :
  h_find_all (named "ul") item h = [] ->
  value (is_neighborhood item h) = Return true ->
  value (enclosing_city item h) = Return city ->
  In city big_cities ->
  h_find_next (named "a") item h = Some link ->
  deref h link = Some (Tag nm attrs cs) ->
  List.length cs <> 1 ->
  town_body web item towns h = (Raise TypeError, h, []).
Proof.
  intros Hul Hn Hc Hb Hl Hd Hlen.
  rewrite town_body_unfold, Hul.
  rewrite (rename_neighborhood_eq item h city Hn Hc).
  apply mem_In in Hb. rewrite Hb, Hl.
  assert (h_string link h = None) as ->; [| reflexivity].
  unfold h_string, string_at. unfold deref in Hd. rewrite Hd.
  destruct cs as [| c [| c' r]]; try reflexivity. simpl in Hlen. lia.
Qed.

(** *** The shape of the output *)

Lemma town_body_towns item towns h out h' t :
  town_body web item towns h = (Return out, h', t) ->
  fst out = towns \/ exists line, fst out = towns ++ [(line ++ newline)%string].
Proof.
  rewrite town_body_unfold.
  destruct (h_find_all (named "ul") item h).
  - destruct (rename_neighborhood item h) as [[[moved | e] h1] t1];
      [| discriminate].
    cbv zeta. destruct (sources_are_good _).
    + intros E. injection E as <- _ _. right. eexists. reflexivity.
    + destruct (check_college_town_status web item h1)
        as [[[[|] | e] h2] t2]; intros E; try discriminate;
        injection E as <- _ _; [right; eexists; reflexivity | now left].
  - intros E. injection E as <- _ _. now left.
Qed.

Lemma town_loop_towns town_list : forall moves towns h out h' t,
  town_loop web town_list moves towns h = (Return out, h', t) ->
  exists added,
    fst out = towns ++ added /\ Forall ends_line added /\
    List.length added <= List.length town_list.
Proof.
  induction town_list as [| item rest IH]; intros moves towns h out h' t;
    cbn [town_loop].
  - intros E. injection E as <- _ _. exists []. simpl.
    rewrite app_nil_r. auto.
  - unfold bind.
    destruct (town_body web (relocate_all moves item) towns h)
      as [[[o1 | e] h1] t1] eqn:Eb; [| discriminate].
    destruct (town_loop web rest (moves ++ snd o1) (fst o1) h1)
      as [[r2 h2] t2] eqn:El.
    intros E. injection E as -> _ _.
    apply IH in El as (added & Ha & Hf & Hl).
    apply town_body_towns in Eb as [Eb | (line & Eb)]; rewrite Eb in Ha.
    + exists added. simpl. auto.
    + exists ((line ++ newline)%string :: added).
      rewrite Ha, <- app_assoc. split; [reflexivity |]. split.
      * constructor; [now exists line | exact Hf].
      * simpl. lia.
Qed.

(** X11.  [get_towns_from_state] returns at most one line for each [li]
    below the list of the state, and every line ends with the line
    break. *)
Theorem at_most_one_record_per_entry tag h ul out h' t :
  h_find_next (named "ul") tag h = Some ul ->
  get_towns_from_state web tag h = (Return out, h', t) ->
  List.length (fst out) <= List.length (h_find_all (named "li") ul h) /\
  Forall ends_line (fst out).
Proof.
  intros Hu. unfold get_towns_from_state.
  cbv beta iota delta [bind read need ret raise]. rewrite Hu.
  destruct (town_loop web (h_find_all (named "li") ul h) [] [] h)
    as [[r2 h2] t2] eqn:El.
  intros E. injection E as -> _ _.
  apply town_loop_towns in El as (added & Ha & Hf & Hl).
  simpl in Ha. rewrite Ha. auto.
Qed.

Lemma get_towns_from_state_lines tag h out h' t :
  get_towns_from_state web tag h = (Return out, h', t) ->
  Forall ends_line (fst out).
Proof.
  unfold get_towns_from_state.
  cbv beta iota delta [bind read need ret raise].
  destruct (h_find_next (named "ul") tag h) as [ul |]; [| discriminate].
  destruct (town_loop web (h_find_all (named "li") ul h) [] [] h)
    as [[r2 h2] t2] eqn:El.
  intros E. injection E as -> _ _.
  apply town_loop_towns in El as (added & Ha & Hf & _).
  simpl in Ha. now rewrite Ha.
Qed.

Lemma scrape_loop_shape rounds : forall tag data h d h' t,
  scrape_loop web rounds tag data h = (Return (Some d), h', t) ->
  (exists added, d = data ++ added /\ Forall ends_line added) /\
  (exists last, value (in_anchor_section last h') = Return false).
Proof.
  induction rounds as [| rounds IH]; intros tag data h d h' t;
    cbn [scrape_loop]; [discriminate |].
  unfold bind at 1. rewrite in_anchor_section_pure.
  destruct (value (in_anchor_section tag h)) as [[|] | e] eqn:Ea;
    try discriminate.
  - cbv beta iota delta [bind read emit need ret raise].
    destruct (get_towns_from_state web tag h) as [[[out | e] h1] t1] eqn:Eg;
      [| discriminate].
    apply get_towns_from_state_lines in Eg.
    destruct (h_find_next (named "h3") (relocate_all (snd out) tag) h1)
      as [next |]; [| discriminate].
    destruct (scrape_loop web rounds next _ h1) as [[r2 h2] t2] eqn:Es.
    intros E. injection E as -> -> _.
    apply IH in Es as [(added & -> & Hf) Hlast]. split; [| exact Hlast].
    exists (((h_text tag h ++ newline)%string :: fst out) ++ added).
    split.
    + rewrite <- !app_assoc. reflexivity.
    + apply Forall_app. split; [| exact Hf].
      constructor; [now eexists | exact Eg].
  - intros E. injection E as <- <- _. split.
    + exists []. now rewrite app_nil_r.
    + now exists tag.
Qed.

Lemma scrape_university_towns_shape h d :
  value (scrape_university_towns web h) = Return (Some d) ->
  Forall ends_line d /\
  exists last,
    value (in_anchor_section last
             (final_heap (scrape_university_towns web h))) = Return false.
Proof.
  unfold scrape_university_towns, requests_get, scrape_document, parse.
  cbv beta iota delta [bind emit need ret raise read].
  destruct (web url) as [doc |]; [| discriminate].
  destruct (h_find _ (0, []) [doc]) as [span |]; [| discriminate].
  destruct (h_find_next (named "h3") span [doc]) as [tag |];
    [| discriminate].
  destruct (scrape_loop web _ tag [] [doc]) as [[r h'] t] eqn:Es.
  unfold value, final_heap. simpl. intros ->.
  apply scrape_loop_shape in Es as [(added & -> & Hf) Hlast]. auto.
Qed.

(** X12.  Every string of the list that [scrape_university_towns]
    returns ends with the line break. *)
Theorem output_lines_end_with_newline h d :
  value (scrape_university_towns web h) = Return (Some d) ->
  Forall ends_line d.
Proof. intros H. now apply scrape_university_towns_shape in H. Qed.

Lemma scrape_loop_closing rounds : forall tag data h d h' t,
  scrape_loop web rounds tag data h = (Return (Some d), h', t) ->
  exists last,
    visits web tag h last h' /\
    value (in_anchor_section last h') = Return false.
Proof.
  induction rounds as [| rounds IH]; intros tag data h d h' t;
    cbn [scrape_loop]; [discriminate |].
  unfold bind at 1. rewrite in_anchor_section_pure.
  destruct (value (in_anchor_section tag h)) as [[|] | e] eqn:Ea;
    try discriminate.
  - cbv beta iota delta [bind read emit need ret raise].
    destruct (get_towns_from_state web tag h) as [[[out | e] h1] t1] eqn:Eg;
      [| discriminate].
    destruct (h_find_next (named "h3") (relocate_all (snd out) tag) h1)
      as [next |] eqn:En; [| discriminate].
    destruct (scrape_loop web rounds next _ h1) as [[r2 h2] t2] eqn:Es.
    intros E. injection E as -> -> _.
    apply IH in Es as (last & Hv & Hl). exists last. split; [| exact Hl].
    eapply visits_next; eassumption.
  - intros E. injection E as _ <- _. exists tag. split; [constructor | exact Ea].
Qed.

Lemma scrape_loop_step rounds tag data h out h1 t next :
  value (in_anchor_section tag h) = Return true ->
  get_towns_from_state web tag h = (Return out, h1, t) ->
  h_find_next (named "h3") (relocate_all (snd out) tag) h1 = Some next ->
  value (scrape_loop web (S rounds) tag data h) =
  value (scrape_loop web rounds next
           ((data ++ [(h_text tag h ++ newline)%string]) ++ fst out) h1).
Proof.
  intros Ha Hg Hn.
  cbn [scrape_loop]. unfold bind at 1. rewrite in_anchor_section_pure, Ha.
  cbv beta iota delta [bind read emit need ret raise]. rewrite Hg.
  cbv beta iota. rewrite Hn. cbv beta iota.
  destruct (scrape_loop web rounds next _ h1) as [[r2 h2] t2]. reflexivity.
Qed.

(** Along the headings the loop comes to, its result is the one of the
    loop started at the last of them, unless the rounds run out. *)
Lemma scrape_loop_along tag h last h1 :
  visits web tag h last h1 ->
  forall rounds data,
    value (scrape_loop web rounds tag data h) = Return None \/
    exists rounds' data',
      value (scrape_loop web rounds tag data h) =
      value (scrape_loop web rounds' last data' h1).
Proof.
  induction 1 as [tag h | tag h out h1 t next last h' Ha Hg Hn Hv IH];
    intros rounds data.
  - right. now exists rounds, data.
  - destruct rounds as [| rounds]; [now left |].
    rewrite (scrape_loop_step rounds tag data h out h1 t next Ha Hg Hn).
    apply IH.
Qed.

Lemma scrape_loop_runs_out rounds last data h out h1 t :
  value (in_anchor_section last h) = Return true ->
  get_towns_from_state web last h = (Return out, h1, t) ->
  h_find_next (named "h3") (relocate_all (snd out) last) h1 = None ->
  value (scrape_loop web rounds last data h) = Return None \/
  value (scrape_loop web rounds last data h) = Raise AttributeError.
Proof.
  intros Ha Hg Hn. destruct rounds as [| rounds]; [now left | right].
  cbn [scrape_loop]. unfold bind at 1. rewrite in_anchor_section_pure, Ha.
  cbv beta iota delta [bind read emit need ret raise]. rewrite Hg.
  cbv beta iota. rewrite Hn. reflexivity.
Qed.

Lemma scrape_university_towns_loop h doc span tag :
  web url = Some doc ->
  h_find (named_with "span" "id" "College_towns_in_the_United_States")
    (0, []) [doc] = Some span ->
  h_find_next (named "h3") span [doc] = Some tag ->
  value (scrape_university_towns web h) =
  value (scrape_loop web (List.length (elements doc)) tag [] [doc]) /\
  final_heap (scrape_university_towns web h) =
  final_heap (scrape_loop web (List.length (elements doc)) tag [] [doc]).
Proof.
  intros Hw Hs Ht.
  unfold scrape_university_towns, requests_get, scrape_document, parse.
  cbv beta iota delta [bind emit need ret raise read].
  rewrite Hw. cbv beta iota. rewrite Hs. cbv beta iota. rewrite Ht.
  cbv beta iota.
  destruct (scrape_loop web _ tag [] [doc]) as [[r h'] t]. split; reflexivity.
Qed.

(** X13.  [scrape_university_towns] returns a list only when the loop,
    going from the first [h3] behind the anchor from heading to heading,
    comes to a heading for which the condition of line 179 is false;
    when it comes to a heading that passes the condition and has no
    [h3] behind it once its section is done, the run raises
    [AttributeError] and returns nothing. *)
Theorem return_needs_a_closing_heading h doc span first :
  web url = Some doc ->
  h_find (named_with "span" "id" "College_towns_in_the_United_States")
    (0, []) [doc] = Some span ->
  h_find_next (named "h3") span [doc] = Some first ->
  (forall d,
      value (scrape_university_towns web h) = Return (Some d) ->
      exists last,
        visits web first [doc] last
          (final_heap (scrape_university_towns web h)) /\
        value (in_anchor_section last
                 (final_heap (scrape_university_towns web h))) =
        Return false) /\
  (forall last h1 out h2 t,
      visits web first [doc] last h1 ->
      value (in_anchor_section last h1) = Return true ->
      get_towns_from_state web last h1 = (Return out, h2, t) ->
      h_find_next (named "h3") (relocate_all (snd out) last) h2 = None ->
      value (scrape_university_towns web h) = Raise AttributeError).
Proof.
  intros Hw Hs Ht.
  destruct (scrape_university_towns_loop h doc span first Hw Hs Ht)
    as [Ev Eh].
  split.
  - intros d Hd. rewrite Eh. rewrite Ev in Hd.
    destruct (scrape_loop web _ first [] [doc]) as [[r h'] t] eqn:Es.
    unfold value in Hd. simpl in Hd. subst r. unfold final_heap. simpl.
    now apply scrape_loop_closing in Es.
  - intros last h1 out h2 t Hv Ha Hg Hn.
    pose proof (scrape_university_towns_total web h) as Htot.
    rewrite Ev in *.
    destruct (scrape_loop_along first [doc] last h1 Hv
                (List.length (elements doc)) [])
      as [E | (rounds' & data' & E)]; [contradiction |].
    rewrite E in *.
    destruct (scrape_loop_runs_out rounds' last data' h1 out h2 t Ha Hg Hn)
      as [E' | E']; [contradiction | exact E'].
Qed.

(** X14.  When the list article has no [span] with the id of the anchor,
    or no [h3] behind it, the run raises [AttributeError] after its
    first request, before any entry is looked at. *)
Theorem missing_anchor_is_fatal h doc :
  web url = Some doc ->
  (h_find (named_with "span" "id" "College_towns_in_the_United_States")
     (0, []) [doc] = None ->
   scrape_university_towns web h =
   (Raise AttributeError, [doc], [Request url])) /\
  (forall span,
      h_find (named_with "span" "id" "College_towns_in_the_United_States")
        (0, []) [doc] = Some span ->
      h_find_next (named "h3") span [doc] = None ->
      scrape_university_towns web h =
      (Raise AttributeError, [doc], [Request url])).
Proof.
  intros Hw. split.
  - intros Hs. unfold scrape_university_towns, requests_get, scrape_document,
      parse.
    cbv beta iota delta [bind emit need ret raise read].
    rewrite Hw. cbv beta iota. now rewrite Hs.
  - intros span Hs Hn. unfold scrape_university_towns, requests_get,
      scrape_document, parse.
    cbv beta iota delta [bind emit need ret raise read].
    rewrite Hw. cbv beta iota. rewrite Hs. cbv beta iota. now rewrite Hn.
Qed.

End Web.

End MoreFacts.

(* ================================================================= *)
(** ** More sample runs                                               *)
(* ================================================================= *)

Module MoreInstances.
Import Text Soup Scraper Spec Shape Examples Table MoreExamples.
Import TableFacts MoreFacts.

Lemma untrusted_entry_follows_checker_witness :
  value (town_body (serve (Some article_one_node)) smalltown []
           [list_article]) =
  match value (check_college_town_status (serve (Some article_one_node))
                 smalltown [list_article]) with
  | Return true =>
      Return ([] ++ [(h_text smalltown [list_article] ++ newline)%string], [])
  | Return false => Return ([], [])
  | Raise e => Raise e
  end /\
  events (town_body (serve (Some article_one_node)) smalltown []
            [list_article]) =
  events (check_college_town_status (serve (Some article_one_node))
            smalltown [list_article]).
Proof.
  apply (untrusted_entry_follows_checker (serve (Some article_one_node))
           smalltown [] [list_article] [] [list_article] []).
  - reflexivity.
  - reflexivity.
  - intros m Hm. simpl in Hm.
    repeat (destruct Hm as [<- | Hm]; [reflexivity |]). destruct Hm.
Defined.

Lemma no_request_without_target_witness :
  check_college_town_status (serve None) plain_town [odd_entries] =
  (Raise TypeError, [odd_entries], [Checked plain_town]) /\
  check_college_town_status (serve None) nowhere [odd_entries] =
  (Raise KeyError, [odd_entries], [Checked nowhere]).
Proof.
  split.
  - apply (proj1 (no_request_without_target (serve None) plain_town
                    [odd_entries])).
    reflexivity.
  - apply (proj2 (no_request_without_target (serve None) nowhere
                    [odd_entries]) (0, [2; 2; 0]));
      reflexivity.
Defined.

Lemma article_without_category_region_witness :
  check_college_town_status (serve (Some article_without_region)) smalltown
    [list_article] =
  (Raise AttributeError, [list_article],
   [Checked smalltown; Request (base_url ++ "/wiki/Smalltown")%string]).
Proof.
  apply (article_without_category_region
           (serve (Some article_without_region)) smalltown [list_article]
           smalltown_link "/wiki/Smalltown" article_without_region).
  - repeat split.
  - reflexivity.
Defined.

Lemma heading_without_span_raises_witness :
  value (check_college_town_status (serve (Some article_bare_heading))
           smalltown [list_article]) = Raise AttributeError.
Proof.
  apply (heading_without_span_raises (serve (Some article_bare_heading))
           smalltown [list_article] smalltown_link "/wiki/Smalltown"
           article_bare_heading [3] [2]).
  - repeat split.
  - exists [4]. split; reflexivity.
  - simpl. tauto.
  - reflexivity.
  - reflexivity.
  - reflexivity.
Defined.

Lemma no_university_no_acceptance_witness :
  value (check_college_town_status (serve (Some article_one_node)) lonetown
           [odd_entries]) = Return false.
Proof.
  apply (no_university_no_acceptance (serve (Some article_one_node)) lonetown
           [odd_entries] (0, [2; 0; 0]) "/wiki/Smalltown" article_one_node
           [[0]]).
  - repeat split.
  - exists [3]. split; reflexivity.
  - reflexivity.
  - simpl. lia.
Defined.

Lemma empty_link_text_accepts_witness :
  value (check_college_town_status (serve (Some article_two_nodes)) sealtown
           [odd_entries]) = Return true.
Proof.
  apply (empty_link_text_accepts (serve (Some article_two_nodes)) sealtown
           [odd_entries] (0, [2; 1; 0]) "/wiki/Smalltown" article_two_nodes
           [[0]; [4]] (0, [2; 1; 2])).
  - repeat split.
  - exists [5]. split; reflexivity.
  - reflexivity.
  - simpl. auto.
  - reflexivity.
  - simpl. lia.
Defined.

Lemma at_most_one_record_per_entry_witness :
  List.length (fst sample_towns) <=
  List.length (h_find_all (named "li") (0, [4]) [list_article]) /\
  Forall ends_line (fst sample_towns).
Proof.
  apply (at_most_one_record_per_entry (serve (Some article_two_nodes))
           california [list_article] (0, [4]) sample_towns
           (final_heap (get_towns_from_state (serve (Some article_two_nodes))
                          california [list_article]))
           (events (get_towns_from_state (serve (Some article_two_nodes))
                      california [list_article])));
    reflexivity.
Defined.

Lemma output_lines_end_with_newline_witness : Forall ends_line sample_output.
Proof.
  apply (output_lines_end_with_newline (serve (Some article_two_nodes)) []
           sample_output).
  reflexivity.
Defined.

Lemma return_needs_a_closing_heading_witness :
  (exists last,
     visits (serve (Some article_two_nodes)) california [list_article] last
       (final_heap (scrape_university_towns
                      (serve (Some article_two_nodes)) [])) /\
     value (in_anchor_section last
              (final_heap (scrape_university_towns
                             (serve (Some article_two_nodes)) []))) =
     Return false) /\
  value (scrape_university_towns (serve_only article_runs_out) []) =
  Raise AttributeError.
Proof.
  split.
  - apply (proj1 (return_needs_a_closing_heading
                    (serve (Some article_two_nodes)) [] list_article
                    (0, [0; 0]) california eq_refl eq_refl eq_refl)
             sample_output).
    reflexivity.
  - apply (proj2 (return_needs_a_closing_heading
                    (serve_only article_runs_out) [] article_runs_out
                    (0, [0; 0]) ohio eq_refl eq_refl eq_refl)
             ohio [article_runs_out]
             ([("Athens (Ohio University)[7]" ++ newline)%string], [])
             [article_runs_out] []).
    + constructor.
    + reflexivity.
    + reflexivity.
    + reflexivity.
Defined.

Lemma missing_anchor_is_fatal_witness :
  scrape_university_towns (serve_only nested_ordered) [] =
  (Raise AttributeError, [nested_ordered], [Request url]) /\
  scrape_university_towns (serve_only anchor_only) [] =
  (Raise AttributeError, [anchor_only], [Request url]).
Proof.
  split.
  - apply (proj1 (missing_anchor_is_fatal (serve_only nested_ordered) []
                    nested_ordered eq_refl)).
    reflexivity.
  - apply (proj2 (missing_anchor_is_fatal (serve_only anchor_only) []
                    anchor_only eq_refl) (0, [0; 0]));
      reflexivity.
Defined.

Lemma sample_lines_are_plain :
  Forall (fun x => exists body, plain body = true /\
                                x = (body ++ newline)%string)
    (render [california_block]).
Proof.
  repeat constructor.
  - exists "California[edit]". split; reflexivity.
  - exists "Westwood, Los Angeles (UCLA)[7]". split; reflexivity.
  - exists "Davis (UC Davis)[9]". split; reflexivity.
Defined.

Lemma lines_survive_the_file_witness :
  open_lines (write_to_txt (render [california_block]) no_files) =
  Some (render [california_block]) /\
  forall name, name <> university_towns_txt ->
               write_to_txt (render [california_block]) no_files name =
               no_files name.
Proof.
  apply (lines_survive_the_file (render [california_block]) no_files).
  exact sample_lines_are_plain.
Defined.

Lemma town_belongs_to_nearest_state_witness :
  In (drop_last 7 (state_line "California"),
      region_of (town_line "Davis" "UC Davis)[9]"))
     (towns_loop
        ([] ++ state_line "California" ::
         [town_line "Westwood, Los Angeles" "UCLA)[7]"] ++
         town_line "Davis" "UC Davis)[9]" :: [])
        EmptyString []) /\
  In (EmptyString, region_of (town_line "Davis" "UC Davis)[9]"))
     (towns_loop
        ([town_line "Westwood, Los Angeles" "UCLA)[7]"] ++
         town_line "Davis" "UC Davis)[9]" :: [])
        EmptyString []).
Proof.
  apply (town_belongs_to_nearest_state [] (state_line "California")
           [town_line "Westwood, Los Angeles" "UCLA)[7]"]
           (town_line "Davis" "UC Davis)[9]") [] EmptyString).
  - reflexivity.
  - repeat constructor.
  - reflexivity.
Defined.

Lemma table_of_written_blocks_witness :
  get_list_of_university_towns
    (write_to_txt (render [california_block]) no_files) =
  Some [("California", "Westwood, Los Angeles"); ("California", "Davis")].
Proof.
  apply (table_of_written_blocks [california_block] no_files).
  repeat constructor.
Defined.

Lemma region_has_no_parenthesis_witness :
  str_in " (" (snd ("California", "Davis")) = false.
Proof.
  apply (region_has_no_parenthesis (render [california_block]) EmptyString
           ("California", "Davis")).
  simpl. auto.
Defined.

Lemma town_line_without_parenthesis_witness :
  region_of ("Smalltown[9]" ++ newline) = "Smalltown[9]".
Proof.
  apply (town_line_without_parenthesis "Smalltown[9]"); reflexivity.
Defined.

Lemma nested_in_scope_nodes_count_twice_witness :
  value (check_college_town_status (serve (Some article_nested)) smalltown
           [list_article]) = Return true.
Proof.
  apply (nested_in_scope_nodes_count_twice (serve (Some article_nested))
           smalltown [list_article] smalltown_link "/wiki/Smalltown"
           article_nested [[0]; [0; 0; 0; 0]] [0] [0; 0; 0] "some college").
  - repeat split.
  - exists [1]. split; reflexivity.
  - reflexivity.
  - simpl. auto.
  - simpl. auto.
  - discriminate.
  - reflexivity.
  - simpl. auto.
  - reflexivity.
Defined.

Lemma link_with_markup_raises_witness :
  town_body (serve None) marked_up_entry [] [marked_up] =
  (Raise TypeError, [marked_up], []).
Proof.
  apply (link_with_markup_raises (serve None) marked_up_entry [] [marked_up]
           "Los Angeles" (0, [2; 0; 2; 0; 0]) "a" [("href", "/wiki/Westwood")]
           [Tag "i" [] [text "West"]; text "wood"]).
  - reflexivity.
  - reflexivity.
  - reflexivity.
  - simpl. auto.
  - reflexivity.
  - reflexivity.
  - discriminate.
Defined.

(** The sample run, written to the file and read back as the table. *)
Lemma sample_run_to_table :
  get_list_of_university_towns (write_to_txt sample_output no_files) =
  Some [("California", "Westwood, Los Angeles");
        ("California", "Smalltown"); ("California", "Davis")].
Proof. reflexivity. Qed.

End MoreInstances.
